(** * Vlingo bilingual subtitle generator: time codec, caption selection,
      seek guard, caption export, upload/poll/generate workflow and the
      application's processing state.

    A shallow embedding of the TypeScript sources [types.ts],
    [components/VideoPlayer.tsx], [components/SubtitleList.tsx],
    [services/geminiService.ts] and [App.tsx], followed by the properties
    proved about it.

    - JavaScript numbers are IEEE 754 binary64 values: Rocq's primitive
      floats, with the same arithmetic and comparisons.
    - JavaScript strings are Rocq strings (the UTF-8 bytes of the text).
    - Code that awaits the provider, waits, or talks to the browser is an
      interaction tree over the requests it makes ([effectE]); a thrown
      error is the [inl] of the tree's result.  The unbounded polling loop
      is [ITree.iter].
    - A run interprets the requests against a [Provider], which fixes every
      answer of the environment, threading a [World]: the application
      state, the number of status queries answered and the log of requests.
    - [JSON.parse] is a parameter of the service and of the application. *)

From Stdlib Require Import String Ascii List ZArith Lia Bool Floats DecimalString.
From ITree Require Import ITree ITreeFacts Events.State Events.StateFacts.
From Paco Require Import paco.
Import ListNotations.
Import ITreeNotations.

Local Open Scope string_scope.
Local Open Scope list_scope.
Local Open Scope itree_scope.

(* Decimal literals such as 10.2 denote the nearest double, as in the sources. *)
Set Warnings "-inexact-float".

(* ===================================================================== *)
(** * The JavaScript built-ins the sources call *)
(* ===================================================================== *)

Module JS.

(** A JavaScript string is modelled by a Rocq [string]; the operations
    below only look for ASCII characters, so they read the same on the
    UTF-8 bytes of a text as on its UTF-16 code units.  Two departures
    from the language, both outside ASCII: only the white space below
    code 128 is trimmed, and only the letters A-Z are lowered (no other
    character lowers to an ASCII letter of the word looked for in
    [App.statusUpdate]). *)

(** ** Characters *)

Definition code (c : ascii) : Z := Z.of_N (N_of_ascii c).

(** WhiteSpace and LineTerminator code points below 128:
    TAB, LF, VT, FF, CR and SPACE. *)
Definition is_space (c : ascii) : bool :=
  let n := code c in
  ((9 <=? n) && (n <=? 13) || (n =? 32))%Z.

(** The value of [c] as a digit: 0-9, then a-z or A-Z for 10-35. *)
Definition digit_of (c : ascii) : option Z :=
  let n := code c in
  if ((48 <=? n) && (n <=? 57))%Z then Some (n - 48)%Z
  else if ((97 <=? n) && (n <=? 122))%Z then Some (n - 87)%Z
  else if ((65 <=? n) && (n <=? 90))%Z then Some (n - 55)%Z
  else None.

Definition is_radix_digit (radix : Z) (c : ascii) : bool :=
  match digit_of c with
  | Some d => (d <? radix)%Z
  | None => false
  end.

Definition is_digit : ascii -> bool := is_radix_digit 10.

(** ** Strings *)

(** [s.split(sep)] for a one-character separator: the pieces between
    the separators, always at least one. *)
Fixpoint split (sep : ascii) (s : string) : list string :=
  match s with
  | EmptyString => [EmptyString]
  | String c rest =>
      if Ascii.eqb c sep then EmptyString :: split sep rest
      else match split sep rest with
           | piece :: more => String c piece :: more
           | [] => [String c EmptyString]
           end
  end.

(** [pieces.join(sep)] *)
Fixpoint join (sep : string) (pieces : list string) : string :=
  match pieces with
  | [] => EmptyString
  | [p] => p
  | p :: more => p ++ sep ++ join sep more
  end.

(** [s.toLowerCase()] on the ASCII letters. *)
Definition lower (c : ascii) : ascii :=
  let n := code c in
  if ((65 <=? n) && (n <=? 90))%Z then ascii_of_N (Z.to_N (n + 32)) else c.

Fixpoint toLowerCase (s : string) : string :=
  match s with
  | EmptyString => EmptyString
  | String c rest => String (lower c) (toLowerCase rest)
  end.

(** [s.includes(needle)] *)
Fixpoint includes (needle s : string) : bool :=
  prefix needle s ||
  match s with
  | EmptyString => false
  | String _ rest => includes needle rest
  end.

(** The longest prefix of [s] whose characters satisfy [p], and the rest. *)
Fixpoint span (p : ascii -> bool) (s : string) : string * string :=
  match s with
  | EmptyString => (EmptyString, EmptyString)
  | String c rest =>
      if p c then let (a, b) := span p rest in (String c a, b)
      else (EmptyString, s)
  end.

Fixpoint trimStart (s : string) : string :=
  match s with
  | EmptyString => EmptyString
  | String c rest => if is_space c then trimStart rest else s
  end.

Fixpoint trimEnd (s : string) : string :=
  match s with
  | EmptyString => EmptyString
  | String c rest =>
      match trimEnd rest with
      | EmptyString => if is_space c then EmptyString else String c EmptyString
      | kept => String c kept
      end
  end.

Definition trim (s : string) : string := trimEnd (trimStart s).

(** A string is falsy exactly when it is empty. *)
Definition truthy (s : string) : bool :=
  match s with
  | EmptyString => false
  | String _ _ => true
  end.

(** [String(n)] for a non-negative integer below 10^21: its decimal
    digits. *)
Definition string_of_nat (n : nat) : string :=
  NilZero.string_of_uint (Nat.to_uint n).

(** ** Numbers *)

(** The binary64 value nearest to an integer (ties to even); [neg] is
    the sign given to a zero. *)
Definition of_Z (neg : bool) (z : Z) : float :=
  SF2Prim (binary_normalize prec emax z 0 neg).

(** The binary64 value nearest to [n / d] for [0 <= n] and [0 < d]:
    the quotient is taken with at least 64 bits, the remainder gives
    the position of the exact value between two neighbours. *)
Definition of_ratio (neg : bool) (n d : Z) : float :=
  let k := Z.max 0 (65 + Z.log2 d - Z.log2 n) in
  let q := (n * 2 ^ k / d)%Z in
  let r := (n * 2 ^ k mod d)%Z in
  let loc := if (r =? 0)%Z then loc_Exact else loc_Inexact (2 * r ?= d)%Z in
  if (n =? 0)%Z then of_Z neg 0
  else SF2Prim (binary_round_aux prec emax neg q (- k) loc).

(** The value of [m * 10^e]. *)
Definition of_decimal (neg : bool) (m e : Z) : float :=
  if (0 <=? e)%Z then of_Z neg (if neg then - (m * 10 ^ e) else m * 10 ^ e)
  else of_ratio neg m (10 ^ (- e)).

(** The integer written by the digits of [s] in [radix], most
    significant first. *)
Fixpoint digits_value (radix : Z) (acc : Z) (s : string) : Z :=
  match s with
  | EmptyString => acc
  | String c rest =>
      digits_value radix
        (acc * radix + match digit_of c with Some d => d | None => 0 end)
        rest
  end.

Definition all_chars (p : ascii -> bool) (s : string) : bool :=
  match span p s with
  | (_, EmptyString) => true
  | _ => false
  end.

(** NonDecimalIntegerLiteral: [0x], [0o] or [0b] and at least one digit. *)
Definition radix_literal (s : string) : option Z :=
  match s with
  | String "0" (String p ds) =>
      let radix :=
        if Ascii.eqb (lower p) "x" then Some 16%Z
        else if Ascii.eqb (lower p) "o" then Some 8%Z
        else if Ascii.eqb (lower p) "b" then Some 2%Z
        else None in
      match radix with
      | Some r =>
          if truthy ds && all_chars (is_radix_digit r) ds
          then Some (digits_value r 0 ds) else None
      | None => None
      end
  | _ => None
  end.

Definition strip_sign (s : string) : bool * string :=
  match s with
  | String "-" rest => (true, rest)
  | String "+" rest => (false, rest)
  | _ => (false, s)
  end.

(** ExponentPart (optional): [e] or [E], an optional sign and at least
    one digit, up to the end of the string. *)
Definition exponent_part (s : string) : option Z :=
  match s with
  | EmptyString => Some 0%Z
  | String c rest =>
      if Ascii.eqb (lower c) "e" then
        let (neg, ds) := strip_sign rest in
        if truthy ds && all_chars is_digit ds
        then Some (if neg then - digits_value 10 0 ds else digits_value 10 0 ds)%Z
        else None
      else None
  end.

(** StrDecimalLiteral: a sign, then [Infinity] or digits with an
    optional fraction and exponent. *)
Definition decimal_literal (s : string) : option float :=
  let (neg, body) := strip_sign s in
  if String.eqb body "Infinity" then Some (if neg then neg_infinity else infinity)
  else
    let (int_part, after_int) := span is_digit body in
    let (frac_part, after_frac) :=
      match after_int with
      | String "." rest => span is_digit rest
      | _ => (EmptyString, after_int)
      end in
    if truthy int_part || truthy frac_part then
      match exponent_part after_frac with
      | Some e =>
          Some (of_decimal neg (digits_value 10 0 (int_part ++ frac_part))
                  (e - Z.of_nat (String.length frac_part)))
      | None => None
      end
    else None.

(** [Number(s)]: the StringToNumber conversion.  Blank strings are 0,
    text that is not a numeric literal is NaN; a literal is rounded to
    the nearest double, ties to even, whatever its length. *)
Definition Number (s : string) : float :=
  let t := trim s in
  if truthy t then
    match radix_literal t with
    | Some z => of_Z false z
    | None =>
        match decimal_literal t with
        | Some x => x
        | None => nan
        end
    end
  else zero.

(** [parseInt(s)] with no radix argument: leading blanks, a sign, an
    optional [0x], then the longest run of digits; NaN when there is
    none. *)
Definition parseInt (s : string) : float :=
  let (neg, body) := strip_sign (trimStart s) in
  let (radix, ds) :=
    match body with
    | String "0" (String p rest) =>
        if Ascii.eqb (lower p) "x" then (16%Z, rest) else (10%Z, body)
    | _ => (10%Z, body)
    end in
  let run := fst (span (is_radix_digit radix) ds) in
  if truthy run then
    let v := digits_value radix 0 run in
    of_Z neg (if neg then - v else v)%Z
  else nan.

(** [array[i]] read as a number: a missing element is [undefined],
    which arithmetic turns into NaN. *)
Definition number_at (i : nat) (xs : list float) : float := nth i xs nan.

(** [a >= b] and [a <= b]; both are false when an operand is NaN. *)
Definition ge (a b : float) : bool := (b <=? a)%float.
Definition le (a b : float) : bool := (a <=? b)%float.
Definition gt (a b : float) : bool := (b <? a)%float.

End JS.

(* ===================================================================== *)
(** * types.ts *)
(* ===================================================================== *)

Inductive Language := ENGLISH | CHINESE.

Record SubtitleItem := {
  startTime : string;
  endTime : string;
  originalText : string;
  translatedText : string
}.

Inductive Status := idle | reading | uploading | processing | completed | error.

Record ProcessingState := {
  status : Status;
  message : option string
}.

(* ===================================================================== *)
(** * components/VideoPlayer.tsx *)
(* ===================================================================== *)

Module VideoPlayer.

(** Helper to parse "HH:MM:SS,mmm" to seconds. *)
Definition parseTime (timeStr : string) : float :=
  let parts := JS.split "," timeStr in
  let hms := nth 0 parts EmptyString in
  let ms := nth_error parts 1 in
  let nums := List.map JS.Number (JS.split ":" hms) in
  let h := JS.number_at 0 nums in
  let m := JS.number_at 1 nums in
  let s := JS.number_at 2 nums in
  (h * 3600 + m * 60 + s
   + JS.parseInt (match ms with
                  | Some text => if JS.truthy text then text else "0"
                  | None => "0"
                  end) / 1000)%float.

(** What the player element receives from an effect. *)
Inductive PlayerWrite := SetCurrentTime (t : float).

(** Sync external currentTime (from subtitle click) to video player.
    [videoRef] is the element's own reported position, [None] while no
    element is mounted; the result lists the writes to the element. *)
Definition syncCurrentTime (videoRef : option float) (currentTime : float)
  : list PlayerWrite :=
  match videoRef with
  | Some playerTime =>
      if JS.gt (abs (playerTime - currentTime)) 0.5
      then [SetCurrentTime currentTime]
      else []
  | None => []
  end.

(** Find active subtitle to display on overlay. *)
Definition activeSubtitle (subtitles : list SubtitleItem) (currentTime : float)
  : option SubtitleItem :=
  find (fun sub =>
          let start := parseTime (startTime sub) in
          let end_ := parseTime (endTime sub) in
          JS.ge currentTime start && JS.le currentTime end_)
       subtitles.

End VideoPlayer.

(* ===================================================================== *)
(** * components/SubtitleList.tsx *)
(* ===================================================================== *)

Module SubtitleList.

Definition parseTime (timeStr : string) : float :=
  let parts := JS.split "," timeStr in
  let hms := nth 0 parts EmptyString in
  let ms := nth_error parts 1 in
  let nums := List.map JS.Number (JS.split ":" hms) in
  let h := JS.number_at 0 nums in
  let m := JS.number_at 1 nums in
  let s := JS.number_at 2 nums in
  (h * 3600 + m * 60 + s
   + JS.parseInt (match ms with
                  | Some text => if JS.truthy text then text else "0"
                  | None => "0"
                  end) / 1000)%float.

(** The highlighted rows of the list. *)
Definition isActive (sub : SubtitleItem) (currentTime : float) : bool :=
  let start := parseTime (startTime sub) in
  let end_ := parseTime (endTime sub) in
  JS.ge currentTime start && JS.le currentTime end_.

End SubtitleList.

(* ===================================================================== *)
(** * The browser and the remote provider, as seen from the sources *)
(* ===================================================================== *)

(** The browser's [File] object. *)
Module File.
Record t := { name : string; type : string; size : N }.
End File.

(** A thrown value: [error.message], and [error.toString()] built from
    the error's name. *)
Module JsError.
Record t := { name : string; message : string }.

(** [new Error(message)] *)
Definition Error (message : string) : t :=
  {| name := "Error"; message := message |}.

Definition toString (e : t) : string :=
  if negb (JS.truthy (name e)) then message e
  else if negb (JS.truthy (message e)) then name e
  else name e ++ ": " ++ message e.
End JsError.

(** The file metadata of the provider's SDK; every field may be absent. *)
Module RemoteFile.
Record t := {
  uri : option string;
  name : option string;
  state : option string
}.
End RemoteFile.

(** A response of the Files API: the metadata either directly on the
    response or wrapped in its [file] field. *)
Record FileResponse := {
  file_field : option RemoteFile.t;
  direct : RemoteFile.t
}.

Record GenerateRequest := {
  model : string;
  fileData_mimeType : string;
  fileData_fileUri : string;
  prompt_text : string;
  responseMimeType : string;
  required_fields : list string;
  temperature : float
}.

Record GenerateResponse := { text : option string }.

Inductive ObjectSource :=
| OfFile (f : File.t)
| OfBlob (content type : string).

(** The application state of [App.tsx], one field per [useState]. *)
Record AppState := {
  file : option File.t;
  videoUrl : option string;
  subtitles : list SubtitleItem;
  processingState : ProcessingState;
  targetLanguage : Language;
  currentTime : float
}.

(** The state setters. *)
Inductive Update :=
| setFile (f : option File.t)
| setVideoUrl (u : option string)
| setSubtitles (l : list SubtitleItem)
| setProcessingState (p : ProcessingState)
| setTargetLanguage (l : Language)
| setCurrentTime (t : float).

Definition apply_update (u : Update) (st : AppState) : AppState :=
  match u with
  | setFile f =>
      {| file := f; videoUrl := videoUrl st; subtitles := subtitles st;
         processingState := processingState st;
         targetLanguage := targetLanguage st; currentTime := currentTime st |}
  | setVideoUrl v =>
      {| file := file st; videoUrl := v; subtitles := subtitles st;
         processingState := processingState st;
         targetLanguage := targetLanguage st; currentTime := currentTime st |}
  | setSubtitles l =>
      {| file := file st; videoUrl := videoUrl st; subtitles := l;
         processingState := processingState st;
         targetLanguage := targetLanguage st; currentTime := currentTime st |}
  | setProcessingState p =>
      {| file := file st; videoUrl := videoUrl st; subtitles := subtitles st;
         processingState := p;
         targetLanguage := targetLanguage st; currentTime := currentTime st |}
  | setTargetLanguage l =>
      {| file := file st; videoUrl := videoUrl st; subtitles := subtitles st;
         processingState := processingState st;
         targetLanguage := l; currentTime := currentTime st |}
  | setCurrentTime t =>
      {| file := file st; videoUrl := videoUrl st; subtitles := subtitles st;
         processingState := processingState st;
         targetLanguage := targetLanguage st; currentTime := t |}
  end.

(** What the code asks of its environment.  An awaited remote call
    answers with the value it resolves to or the error it rejects with. *)
Variant effectE : Type -> Type :=
| FilesUpload (f : File.t) (displayName mimeType : string)
    : effectE (JsError.t + FileResponse)
| Sleep (ms : Z) : effectE unit
| FilesGet (name : option string) : effectE (JsError.t + FileResponse)
| GenerateContent (req : GenerateRequest) : effectE (JsError.t + GenerateResponse)
| ConsoleError (label : string) : effectE unit
| ConsoleLog (label : string) : effectE unit
| Alert (msg : string) : effectE unit
| CreateObjectURL (src : ObjectSource) : effectE string
| RevokeObjectURL (url : string) : effectE unit
| AnchorClick (href download : string) : effectE unit
| SetState (u : Update) : effectE unit.

Definition LF : string := String "010"%char EmptyString.

(* ===================================================================== *)
(** * services/geminiService.ts *)
(* ===================================================================== *)

Module GeminiService.
Section Service.

(** [JSON.parse] followed by the unchecked cast to [SubtitleItem[]];
    [None] when the text does not parse. *)
Variable JSON_parse : string -> option (list SubtitleItem).

Definition modelId : string := "gemini-2.5-flash".

Definition Language_text (l : Language) : string :=
  match l with ENGLISH => "English" | CHINESE => "Chinese" end.

Definition prompt (targetLanguage : Language) : string :=
  LF ++
  "      You are an expert subtitle generator and translator." ++ LF ++
  "      Task:" ++ LF ++
  "      1. Analyze the audio in the provided video file." ++ LF ++
  "      2. Transcribe the spoken content accurately." ++ LF ++
  "      3. The user has selected the target language preference: "
    ++ Language_text targetLanguage ++ "." ++ LF ++
  "      4. STRICTLY output bilingual subtitles (English and Chinese)." ++ LF ++
  "         - Determine the language of the audio." ++ LF ++
  "         - 'originalText': The transcription of what was actually said." ++ LF ++
  "         - 'translatedText': The translation into the OTHER language (English <-> Chinese)." ++ LF ++
  "         - Example: If audio is English, 'originalText' is English, 'translatedText' is Chinese." ++ LF ++
  "         - Example: If audio is Chinese, 'originalText' is Chinese, 'translatedText' is English." ++ LF ++
  "      5. Generate precise timestamps (HH:MM:SS,mmm)." ++ LF ++
  "      " ++ LF ++
  "      Output Format:" ++ LF ++
  "      Return a valid JSON array of objects." ++ LF ++
  "    ".

(** [response.file ?? response].  The response itself is an object here,
    so the [!uploadedFile] half of the guard never fires. *)
Definition unwrap (r : FileResponse) : RemoteFile.t :=
  match file_field r with
  | Some f => f
  | None => direct r
  end.

Definition truthy_opt (o : option string) : bool :=
  match o with
  | Some s => JS.truthy s
  | None => false
  end.

(** [fileState === literal] *)
Definition state_is (fileState : option string) (literal : string) : bool :=
  match fileState with
  | Some s => String.eqb s literal
  | None => false
  end.

(** [if (onStatusUpdate) onStatusUpdate(msg)] *)
Definition notify (onStatusUpdate : option (string -> effectE unit))
           (msg : string) : itree effectE unit :=
  match onStatusUpdate with
  | Some callback => ITree.trigger (callback msg)
  | None => Ret tt
  end.

(** One turn of [while (fileState === "PROCESSING")]: [inl] carries
    the state into the next turn, [inr] leaves the loop, normally or
    by a throw. *)
Definition poll_step (fileName : option string) (fileState : option string)
  : itree effectE (option string + (JsError.t + unit)) :=
  if state_is fileState "PROCESSING" then
    ITree.trigger (Sleep 2000) ;;
    fileStatus <- ITree.trigger (FilesGet fileName) ;;
    match fileStatus with
    | inl err => Ret (inr (inl err))
    | inr fileStatus =>
        let currentFile := unwrap fileStatus in
        let fileState := RemoteFile.state currentFile in
        if state_is fileState "FAILED"
        then Ret (inr (inl (JsError.Error "Video processing failed on Gemini servers.")))
        else Ret (inl fileState)
    end
  else Ret (inr (inr tt)).

Definition poll (fileName : option string) (fileState : option string)
  : itree effectE (JsError.t + unit) :=
  ITree.iter (poll_step fileName) fileState.

(** Phase 3, from the response of [generateContent]. *)
Definition parse_response (response : GenerateResponse)
  : itree effectE (JsError.t + list SubtitleItem) :=
  match text response with
  | Some t =>
      if JS.truthy t then
        match JSON_parse t with
        | Some data => Ret (inr data)
        | None =>
            ITree.trigger (ConsoleError "JSON Parse Error:") ;;
            ITree.trigger (ConsoleLog "Raw Response:") ;;
            Ret (inl (JsError.Error "Failed to parse generated subtitles."))
        end
      else Ret (inl (JsError.Error "No content generated."))
  | None => Ret (inl (JsError.Error "No content generated."))
  end.

(** 3. Generate Subtitles *)
Definition generate (mimeType fileUri : string) (targetLanguage : Language)
           (onStatusUpdate : option (string -> effectE unit))
  : itree effectE (JsError.t + list SubtitleItem) :=
  notify onStatusUpdate "Generating subtitles..." ;;
  response <- ITree.trigger (GenerateContent
    {| model := modelId;
       fileData_mimeType := mimeType;
       fileData_fileUri := fileUri;
       prompt_text := prompt targetLanguage;
       responseMimeType := "application/json";
       required_fields :=
         ["startTime"; "endTime"; "originalText"; "translatedText"];
       temperature := 0.1 |}) ;;
  match response with
  | inl err => Ret (inl err)
  | inr response => parse_response response
  end.

(** The body of the [try] block. *)
Definition attempt (f : File.t) (targetLanguage : Language)
           (onStatusUpdate : option (string -> effectE unit))
  : itree effectE (JsError.t + list SubtitleItem) :=
  (* 1. Upload the file using the Files API *)
  notify onStatusUpdate "Uploading video to Gemini..." ;;
  (* Ensure we have a valid mimeType. *)
  let mimeType := if JS.truthy (File.type f) then File.type f else "video/mp4" in
  uploadResult <- ITree.trigger (FilesUpload f (File.name f) mimeType) ;;
  match uploadResult with
  | inl err => Ret (inl err)
  | inr uploadResult =>
      let uploadedFile := unwrap uploadResult in
      if truthy_opt (RemoteFile.uri uploadedFile) then
        let fileUri :=
          match RemoteFile.uri uploadedFile with
          | Some u => u
          | None => EmptyString
          end in
        let fileName := RemoteFile.name uploadedFile in
        (* 2. Poll for processing state *)
        notify onStatusUpdate "Processing video..." ;;
        polled <- poll fileName (RemoteFile.state uploadedFile) ;;
        match polled with
        | inl err => Ret (inl err)
        | inr _ => generate mimeType fileUri targetLanguage onStatusUpdate
        end
      else
        ITree.trigger (ConsoleError "Unexpected upload result:") ;;
        Ret (inl (JsError.Error "Failed to upload file: URI is missing from response."))
  end.

(** [try { ... } catch (error) { console.error(...); throw error; }] *)
Definition generateBilingualSubtitles (f : File.t) (targetLanguage : Language)
           (onStatusUpdate : option (string -> effectE unit))
  : itree effectE (JsError.t + list SubtitleItem) :=
  outcome <- attempt f targetLanguage onStatusUpdate ;;
  match outcome with
  | inl err => ITree.trigger (ConsoleError "Gemini API Error:") ;; Ret (inl err)
  | inr data => Ret (inr data)
  end.

End Service.
End GeminiService.

(* ===================================================================== *)
(** * App.tsx *)
(* ===================================================================== *)

Module App.
Section Component.

Variable JSON_parse : string -> option (list SubtitleItem).

Definition MAX_FILE_SIZE : N := (4 * 1024 * 1024 * 1024)%N. (* 4GB *)

Definition initialState : AppState :=
  {| file := None;
     videoUrl := None;
     subtitles := [];
     processingState := {| status := idle; message := None |};
     targetLanguage := ENGLISH;
     currentTime := 0 |}.

Definition set (u : Update) : itree effectE unit := ITree.trigger (SetState u).

(** [st] is the state the handler closed over when it was rendered;
    [files0] is [e.target.files?.[0]]. *)
Definition handleFileChange (st : AppState) (files0 : option File.t)
  : itree effectE unit :=
  match files0 with
  | None => Ret tt
  | Some selectedFile =>
      if (MAX_FILE_SIZE <? File.size selectedFile)%N then
        ITree.trigger (Alert "File size exceeds the 4GB limit.")
      else
        (* Cleanup old URL *)
        match videoUrl st with
        | Some url =>
            if JS.truthy url then ITree.trigger (RevokeObjectURL url) else Ret tt
        | None => Ret tt
        end ;;
        set (setFile (Some selectedFile)) ;;
        url <- ITree.trigger (CreateObjectURL (OfFile selectedFile)) ;;
        set (setVideoUrl (Some url)) ;;
        set (setSubtitles []) ;;
        set (setProcessingState {| status := idle; message := None |})
  end.

(** Map status messages to basic state or just update message. *)
Definition statusUpdate (statusMessage : string) : Update :=
  let status :=
    if JS.includes "upload" (JS.toLowerCase statusMessage)
    then uploading else processing in
  setProcessingState {| status := status; message := Some statusMessage |}.

Definition statusCallback (statusMessage : string) : effectE unit :=
  SetState (statusUpdate statusMessage).

Definition errorMessage (err : JsError.t) : string :=
  let errorMsg := "Failed to generate subtitles. Please try again." in
  let errorMsg :=
    if JS.includes "Project not found" (JsError.message err)
    then "API Key Invalid or Quota Exceeded." else errorMsg in
  let errorMsg :=
    if JS.includes "413" (JsError.toString err)
    then "File is too large for the current API tier or connection."
    else errorMsg in
  errorMsg ++ " (" ++ JsError.message err ++ ")".

Definition handleProcess (st : AppState) : itree effectE unit :=
  match file st with
  | None => Ret tt
  | Some f =>
      (* Initial state *)
      set (setProcessingState
             {| status := uploading; message := Some "Starting upload..." |}) ;;
      outcome <- GeminiService.generateBilingualSubtitles JSON_parse
                   f (targetLanguage st) (Some statusCallback) ;;
      match outcome with
      | inr generatedSubtitles =>
          set (setSubtitles generatedSubtitles) ;;
          set (setProcessingState {| status := completed; message := None |})
      | inl err =>
          ITree.trigger (ConsoleError (JsError.toString err)) ;;
          set (setProcessingState
                 {| status := error; message := Some (errorMessage err) |})
      end
  end.

(** The text of one block of the exported file. *)
Definition srtBlock (sub : SubtitleItem) (index : nat) : string :=
  JS.string_of_nat (index + 1) ++ LF ++
  startTime sub ++ " --> " ++ endTime sub ++ LF ++
  translatedText sub ++ LF ++
  originalText sub ++ LF.

(** [array.map((x, index) => f(x, index))], counting from [index]. *)
Fixpoint map_index {A B : Type} (f : A -> nat -> B) (index : nat) (l : list A)
  : list B :=
  match l with
  | [] => []
  | x :: rest => f x index :: map_index f (S index) rest
  end.

Definition srtContent (subs : list SubtitleItem) : string :=
  JS.join LF (map_index srtBlock 0 subs).

Definition downloadSRT (st : AppState) : itree effectE unit :=
  if (List.length (subtitles st) =? 0)%nat then Ret tt
  else
    url <- ITree.trigger
             (CreateObjectURL (OfBlob (srtContent (subtitles st)) "text/plain")) ;;
    ITree.trigger (AnchorClick url "subtitles.srt") ;;
    ITree.trigger (RevokeObjectURL url).

(** The reset button next to the file name. *)
Definition handleReset : itree effectE unit :=
  set (setFile None) ;;
  set (setVideoUrl None) ;;
  set (setSubtitles []) ;;
  set (setProcessingState {| status := idle; message := None |}).

(** ** The controls the rendered page offers *)

Inductive Control :=
| FileInput (files0 : option File.t)
| GenerateButton
| ResetButton
| LanguageButton (l : Language)
| DownloadButton
| PlayerTimeUpdate (t : float)
| SubtitleRow (index : nat).

Definition hasVideo (st : AppState) : bool :=
  match videoUrl st with
  | Some url => JS.truthy url
  | None => false
  end.

Definition busy (st : AppState) : bool :=
  match status (processingState st) with
  | processing | reading | uploading => true
  | _ => false
  end.

(** What a control runs, with the state of the render it belongs to;
    a control that is not rendered, or is disabled, runs nothing. *)
Definition invoke (c : Control) (st : AppState) : itree effectE unit :=
  match c with
  | FileInput files0 =>
      if hasVideo st then Ret tt else handleFileChange st files0
  | GenerateButton =>
      if hasVideo st && negb (busy st) then handleProcess st else Ret tt
  | ResetButton =>
      if hasVideo st then handleReset else Ret tt
  | LanguageButton l =>
      if hasVideo st then set (setTargetLanguage l) else Ret tt
  | DownloadButton =>
      if (0 <? List.length (subtitles st))%nat then downloadSRT st else Ret tt
  | PlayerTimeUpdate t =>
      if hasVideo st then set (setCurrentTime t) else Ret tt
  | SubtitleRow index =>
      match nth_error (subtitles st) index with
      | Some sub => set (setCurrentTime (SubtitleList.parseTime (startTime sub)))
      | None => Ret tt
      end
  end.

End Component.
End App.

(* ===================================================================== *)
(** * Running the code against an environment *)
(* ===================================================================== *)

(** The answers of the environment: the provider's replies (the [i]-th
    status query gets [get_reply i]) and the browser's object URLs. *)
Record Provider := {
  upload_reply : JsError.t + FileResponse;
  get_reply : nat -> JsError.t + FileResponse;
  generate_reply : JsError.t + GenerateResponse;
  object_url : ObjectSource -> string
}.

(** A request made to the environment. *)
Inductive Call :=
| Called : forall X : Type, effectE X -> Call.

Arguments Called {X} e.

Record World := {
  app : AppState;
  queries : nat;      (* status queries answered so far *)
  log : list Call     (* the requests made, oldest first *)
}.

Definition reply (p : Provider) (w : World) {X : Type} (e : effectE X) : X :=
  match e in effectE X return X with
  | FilesUpload _ _ _ => upload_reply p
  | FilesGet _ => get_reply p (queries w)
  | GenerateContent _ => generate_reply p
  | CreateObjectURL src => object_url p src
  | Sleep _ | ConsoleError _ | ConsoleLog _ | Alert _
  | RevokeObjectURL _ | AnchorClick _ _ | SetState _ => tt
  end.

(** State updates change the application state; every other request is
    appended to the log. *)
Definition record (w : World) {X : Type} (e : effectE X) : World :=
  match e with
  | SetState u =>
      {| app := apply_update u (app w); queries := queries w; log := log w |}
  | FilesGet _ =>
      {| app := app w; queries := S (queries w); log := log w ++ [Called e] |}
  | _ =>
      {| app := app w; queries := queries w; log := log w ++ [Called e] |}
  end.

Definition handle (p : Provider) : effectE ~> Monads.stateT World (itree void1) :=
  fun X e w => Ret (record w e, reply p w e).

Definition run {R : Type} (p : Provider) (t : itree effectE R) (w : World)
  : itree void1 (World * R) :=
  interp_state (handle p) t w.

Definition start (st : AppState) : World :=
  {| app := st; queries := 0; log := [] |}.

(** ** The setters a piece of code can reach *)

(** [emits u n t]: within [n] steps, under some answers of the
    environment, [t] performs the state update [u]. *)
Fixpoint emits {R : Type} (u : Update) (n : nat) (t : itree effectE R) : Prop :=
  match n with
  | O => False
  | S n' =>
      match observe t with
      | RetF _ => False
      | TauF t' => emits u n' t'
      | VisF e k =>
          match e with SetState u' => u' = u | _ => False end
          \/ exists x, emits u n' (k x)
      end
  end.

(** The states of the application: the initial one, and any state
    obtained from a reachable state by a state update that a control,
    rendered in a reachable state, performs. *)
Inductive reachable (JSON_parse : string -> option (list SubtitleItem))
  : AppState -> Prop :=
| reach_initial : reachable JSON_parse App.initialState
| reach_update (rendered st : AppState) (c : App.Control) (u : Update) (n : nat) :
    reachable JSON_parse rendered ->
    reachable JSON_parse st ->
    emits u n (App.invoke JSON_parse c rendered) ->
    reachable JSON_parse (apply_update u st).

(* ===================================================================== *)
(** * The vocabulary of the statements *)
(* ===================================================================== *)

(** ** Timestamps and captions *)

(** A character other than the separator [sep]. *)
Definition other_than (sep : ascii) (c : ascii) : bool := negb (Ascii.eqb c sep).

(** A component of a timestamp: decimal digits only. *)
Definition digits (s : string) : Prop := JS.all_chars JS.is_digit s = true.

(** The number a component stands for: the double nearest to the integer
    its digits write (the integer itself below 2^53). *)
Definition component (s : string) : float :=
  JS.of_Z false (JS.digits_value 10 0 s).

(** The timestamp text [hh:mm:ss]. *)
Definition clock (hh mm ss : string) : string :=
  hh ++ ":" ++ mm ++ ":" ++ ss.

(** [t] lies in the caption's range, both ends included, the ends read
    as seconds. *)
Definition in_range (t : float) (c : SubtitleItem) : Prop :=
  (VideoPlayer.parseTime (startTime c) <=? t)%float = true
  /\ (t <=? VideoPlayer.parseTime (endTime c))%float = true.

(** The block of caption [c] at 0-based position [i], in the words of
    the specification. *)
Definition block_text (i : nat) (c : SubtitleItem) : string :=
  JS.string_of_nat (i + 1) ++ LF
  ++ startTime c ++ " --> " ++ endTime c ++ LF
  ++ translatedText c ++ LF
  ++ originalText c ++ LF.

(** ** Worlds and their logs *)

(** The world after further logged requests. *)
Definition logged (w : World) (calls : list Call) : World :=
  {| app := app w; queries := queries w; log := log w ++ calls |}.

(** A status callback that only updates the caller's state. *)
Definition updating (cb : option (string -> Update)) : option (string -> effectE unit) :=
  option_map (fun f msg => SetState (f msg)) cb.

(** The world after the callback, if there is one, was told [msg]. *)
Definition told (cb : option (string -> Update)) (msg : string) (w : World) : World :=
  match cb with
  | Some f => record w (SetState (f msg))
  | None => w
  end.

(** [k] turns of the polling loop: a wait of 2000 ms, then a status query. *)
Definition polls (name : option string) (k : nat) : list Call :=
  concat (repeat [Called (Sleep 2000); Called (FilesGet name)] k).

(** The world after [k] turns of the polling loop. *)
Definition polled (w : World) (name : option string) (k : nat) : World :=
  {| app := app w; queries := queries w + k; log := log w ++ polls name k |}.

(** The media type sent with the upload and with the generation request. *)
Definition mimeType_of (f : File.t) : string :=
  if JS.truthy (File.type f) then File.type f else "video/mp4".

(** The upload request for [f]. *)
Definition upload_of (f : File.t) : Call :=
  Called (FilesUpload f (File.name f) (mimeType_of f)).

(** The generation request for [f], uploaded as [fileUri]. *)
Definition request_for (f : File.t) (targetLanguage : Language) (fileUri : string)
  : GenerateRequest :=
  {| model := "gemini-2.5-flash";
     fileData_mimeType := mimeType_of f;
     fileData_fileUri := fileUri;
     prompt_text := GeminiService.prompt targetLanguage;
     responseMimeType := "application/json";
     required_fields := ["startTime"; "endTime"; "originalText"; "translatedText"];
     temperature := 0.1 |}.

(** Console output. *)
Definition console (c : Call) : Prop :=
  match c with
  | Called (ConsoleError _) | Called (ConsoleLog _) => True
  | _ => False
  end.

(** The number of waits among the requests. *)
Fixpoint waits (calls : list Call) : nat :=
  match calls with
  | [] => 0
  | Called (Sleep _) :: rest => S (waits rest)
  | _ :: rest => waits rest
  end.

(** Whether the structured-output request is among the requests. *)
Fixpoint generation_attempted (calls : list Call) : bool :=
  match calls with
  | [] => false
  | Called (GenerateContent _) :: _ => true
  | _ :: rest => generation_attempted rest
  end.

(** The world when the polling loop has ended after [k] turns. *)
Definition after_polling (cb : option (string -> Update)) (f : File.t)
           (w : World) (name : option string) (k : nat) : World :=
  polled (told cb "Processing video..."
            (logged (told cb "Uploading video to Gemini..." w) [upload_of f]))
         name k.

(** The [catch] around the attempt: log the error and throw it again. *)
Definition caught (w : World) (res : JsError.t + list SubtitleItem) : World :=
  match res with
  | inl _ => logged w [Called (ConsoleError "Gemini API Error:")]
  | inr _ => w
  end.

(** The world when [handleProcess] has set its initial state. *)
Definition starting (w : World) : World :=
  record w (SetState (setProcessingState
                        {| status := uploading;
                           message := Some "Starting upload..." |})).

(** The world when [handleProcess] has dealt with the outcome of the
    workflow. *)
Definition finished (w : World) (res : JsError.t + list SubtitleItem) : World :=
  match res with
  | inr generatedSubtitles =>
      record (record w (SetState (setSubtitles generatedSubtitles)))
             (SetState (setProcessingState {| status := completed; message := None |}))
  | inl err =>
      record (record w (ConsoleError (JsError.toString err)))
             (SetState (setProcessingState
                          {| status := error;
                             message := Some (App.errorMessage err) |}))
  end.

(** ** What the workflow sees of the provider *)

(** The state reported by the reply to the [j]-th status query. *)
Definition status_reply (p : Provider) (j : nat) : option (option string) :=
  match get_reply p j with
  | inr r => Some (RemoteFile.state (GeminiService.unwrap r))
  | inl _ => None
  end.

(** The [i]-th state the workflow gets to see when it starts in [w]:
    the state of the upload response, then the replies to its status
    queries. *)
Definition seen (p : Provider) (w : World) (i : nat) : option (option string) :=
  match i with
  | O =>
      match upload_reply p with
      | inr r => Some (RemoteFile.state (GeminiService.unwrap r))
      | inl _ => None
      end
  | S j => status_reply p (queries w + j)
  end.

(** How the polling loop ends on a state other than PROCESSING that a
    status query reported. *)
Definition poll_result (s : option string) : JsError.t + unit :=
  if GeminiService.state_is s "FAILED"
  then inl (JsError.Error "Video processing failed on Gemini servers.")
  else inr tt.

(** ** State updates *)

(** Every state update that [t] can perform satisfies [P]. *)
Definition only {R : Type} (P : Update -> Prop) (t : itree effectE R) : Prop :=
  forall n u, emits u n t -> P u.

(** A state update other than one to the status [reading]. *)
Definition not_reading (u : Update) : Prop :=
  match u with
  | setProcessingState ps => status ps <> reading
  | _ => True
  end.

(* ===================================================================== *)
(** * Sample inputs *)
(* ===================================================================== *)

Definition caption (a b : string) : SubtitleItem :=
  {| startTime := a; endTime := b; originalText := "Hi"; translatedText := "Hello" |}.

Definition sample_file : File.t :=
  {| File.name := "talk.mp4"; File.type := "video/mp4"; File.size := 1048576 |}.

(** One byte more than 4 GiB. *)
Definition huge_file : File.t :=
  {| File.name := "film.mkv"; File.type := "video/x-matroska";
     File.size := 4294967297 |}.

(** A state with one caption to export. *)
Definition one_caption : AppState :=
  {| file := None; videoUrl := None;
     subtitles := [caption "00:00:01,000" "00:00:02,000"];
     processingState := {| status := completed; message := None |};
     targetLanguage := ENGLISH; currentTime := 0 |}.

(** A state with a file selected and nothing generated yet. *)
Definition selected : AppState :=
  {| file := Some sample_file;
     videoUrl := Some "blob:1";
     subtitles := [];
     processingState := {| status := idle; message := None |};
     targetLanguage := ENGLISH;
     currentTime := 0 |}.

Definition with_status (s : Status) (msg : option string) : AppState :=
  apply_update (setProcessingState {| status := s; message := msg |}) selected.

(** A provider that cannot be reached. *)
Definition quiet_provider : Provider :=
  {| upload_reply := inl (JsError.Error "offline");
     get_reply := fun _ => inl (JsError.Error "offline");
     generate_reply := inl (JsError.Error "offline");
     object_url := fun _ => "blob:1" |}.

(** An upload response wrapped in [file], without a [uri]. *)
Definition no_uri_provider : Provider :=
  {| upload_reply :=
       inr {| file_field := Some {| RemoteFile.uri := None;
                                    RemoteFile.name := Some "files/abc";
                                    RemoteFile.state := Some "ACTIVE" |};
              direct := {| RemoteFile.uri := None; RemoteFile.name := None;
                           RemoteFile.state := None |} |};
     get_reply := fun _ => inl (JsError.Error "not asked");
     generate_reply := inl (JsError.Error "not asked");
     object_url := fun _ => "blob:1" |}.

(** File metadata sent directly on the response, in state [s]. *)
Definition remote_file (s : string) : FileResponse :=
  {| file_field := None;
     direct := {| RemoteFile.uri := Some "https://provider.example/files/abc";
                  RemoteFile.name := Some "files/abc";
                  RemoteFile.state := Some s |} |}.

(** The provider of the specification's polling example: PROCESSING in
    the upload response, PROCESSING from the first status query, ACTIVE
    from the second. *)
Definition twice_processing : Provider :=
  {| upload_reply := inr (remote_file "PROCESSING");
     get_reply := fun j => match j with
                           | O => inr (remote_file "PROCESSING")
                           | _ => inr (remote_file "ACTIVE")
                           end;
     generate_reply := inr {| text := Some "[]" |};
     object_url := fun _ => "blob:1" |}.

(** The provider whose upload response already reports FAILED. *)
Definition failed_upload : Provider :=
  {| upload_reply := inr (remote_file "FAILED");
     get_reply := fun _ => inl (JsError.Error "not asked");
     generate_reply := inr {| text := Some "[]" |};
     object_url := fun _ => "blob:1" |}.

(* ===================================================================== *)
(** * Runs as a whole *)
(* ===================================================================== *)

(** The vocabulary and the sample inputs of the statements about whole
    runs of the handlers: what a run returns, what it leaves alone, what
    the provider answered, and the lines of the exported file. *)

(** [returns_within n t]: the result of [t], when [t] returns within [n]
    steps. *)
Fixpoint returns_within {R : Type} (n : nat) (t : itree void1 R) : option R :=
  match n with
  | O => None
  | S n' =>
      match observe t with
      | RetF r => Some r
      | TauF t' => returns_within n' t'
      | VisF e _ => match e with end
      end
  end.

(** An update of the processing state. *)
Definition status_only (u : Update) : Prop :=
  match u with
  | setProcessingState _ => True
  | _ => False
  end.

(** The fields that a generation leaves alone. *)
Definition same_selection (a b : AppState) : Prop :=
  file a = file b /\ videoUrl a = videoUrl b
  /\ targetLanguage a = targetLanguage b /\ currentTime a = currentTime b.

(** A provider whose every reported state is PROCESSING. *)
Definition forever_processing : Provider :=
  {| upload_reply := inr (remote_file "PROCESSING");
     get_reply := fun _ => inr (remote_file "PROCESSING");
     generate_reply := inr {| text := Some "[]" |};
     object_url := fun _ => "blob:1" |}.

(** The states seen before the generation request: PROCESSING [k] times,
    then a state that is neither PROCESSING nor FAILED. *)
Definition made_ready (p : Provider) (w : World) (k : nat) : Prop :=
  (forall i, i < k -> seen p w i = Some (Some "PROCESSING"))
  /\ exists s, seen p w k = Some s /\ s <> Some "PROCESSING" /\ s <> Some "FAILED".

(** A provider whose status queries are rejected. *)
Definition dropped_provider : Provider :=
  {| upload_reply := inr (remote_file "PROCESSING");
     get_reply := fun _ => inl (JsError.Error "offline");
     generate_reply := inr {| text := Some "[]" |};
     object_url := fun _ => "blob:1" |}.

(** A provider whose first status reply is FAILED. *)
Definition failing_provider : Provider :=
  {| upload_reply := inr (remote_file "PROCESSING");
     get_reply := fun _ => inr (remote_file "FAILED");
     generate_reply := inr {| text := Some "[]" |};
     object_url := fun _ => "blob:1" |}.

(** A provider whose generation response has no text. *)
Definition silent_provider : Provider :=
  {| upload_reply := inr (remote_file "ACTIVE");
     get_reply := fun _ => inr (remote_file "ACTIVE");
     generate_reply := inr {| text := None |};
     object_url := fun _ => "blob:1" |}.

(** [x] is NaN. *)
Definition is_NaN (x : float) : Prop := Prim2SF x = S754_nan.

(** The clock components of a timestamp: the text before the first comma,
    split at the colons. *)
Definition clock_parts (timeStr : string) : list string :=
  JS.split ":" (nth 0 (JS.split "," timeStr) EmptyString).

(** The number of object URLs released among the requests. *)
Fixpoint revocations (calls : list Call) : nat :=
  match calls with
  | [] => 0
  | Called (RevokeObjectURL _) :: rest => S (revocations rest)
  | _ :: rest => revocations rest
  end.

(** A text without a line feed. *)
Definition single_line (s : string) : Prop :=
  JS.all_chars (other_than "010"%char) s = true.

(** The lines of the block of caption [c] at position [i]. *)
Definition block_lines (c : SubtitleItem) (i : nat) : list string :=
  [JS.string_of_nat (i + 1);
   (startTime c ++ " --> " ++ endTime c)%string;
   translatedText c;
   originalText c;
   EmptyString].

(** A caption whose timestamps and texts hold no line feed. *)
Definition single_line_caption (c : SubtitleItem) : Prop :=
  single_line (startTime c) /\ single_line (endTime c)
  /\ single_line (translatedText c) /\ single_line (originalText c).

(** Exactly 4 GiB. *)
Definition largest_file : File.t :=
  {| File.name := "film.mkv"; File.type := "video/x-matroska";
     File.size := 4294967296 |}.

(** The state after [f] was accepted. *)
Definition accepted (p : Provider) (f : File.t) (st : AppState) : AppState :=
  {| file := Some f;
     videoUrl := Some (object_url p (OfFile f));
     subtitles := [];
     processingState := {| status := idle; message := None |};
     targetLanguage := targetLanguage st;
     currentTime := currentTime st |}.

(** The state after the reset button. *)
Definition cleared (st : AppState) : AppState :=
  {| file := None;
     videoUrl := None;
     subtitles := [];
     processingState := {| status := idle; message := None |};
     targetLanguage := targetLanguage st;
     currentTime := currentTime st |}.

(* ===================================================================== *)
(** * Properties of the built-ins *)
(* ===================================================================== *)

Section StringFacts.

Lemma append_empty_r (s : string) : (s ++ "")%string = s.
Proof. induction s as [|c s IH]; simpl; [reflexivity | now rewrite IH]. Qed.

Lemma all_chars_cons (p : ascii -> bool) (c : ascii) (s : string) :
  JS.all_chars p (String c s) = p c && JS.all_chars p s.
Proof.
  unfold JS.all_chars; simpl.
  destruct (p c); [| reflexivity].
  destruct (JS.span p s) as [a [|b0 b]]; reflexivity.
Qed.

Lemma all_chars_weaken (p q : ascii -> bool) (s : string) :
  (forall c, p c = true -> q c = true) ->
  JS.all_chars p s = true -> JS.all_chars q s = true.
Proof.
  intros Hpq. induction s as [|c s IH]; [reflexivity |].
  rewrite !all_chars_cons, !andb_true_iff. intros [Hc Hs]. auto.
Qed.

Lemma span_all (p : ascii -> bool) (s : string) :
  JS.all_chars p s = true -> JS.span p s = (s, "").
Proof.
  induction s as [|c s IH]; [reflexivity |].
  rewrite all_chars_cons, andb_true_iff. intros [Hc Hs].
  simpl. rewrite Hc, (IH Hs). reflexivity.
Qed.

Lemma split_no_separator (sep : ascii) (s : string) :
  JS.all_chars (other_than sep) s = true -> JS.split sep s = [s].
Proof.
  induction s as [|c s IH]; [reflexivity |].
  rewrite all_chars_cons, andb_true_iff. unfold other_than at 1.
  intros [Hc Hs]. simpl.
  destruct (Ascii.eqb c sep); [discriminate |].
  now rewrite (IH Hs).
Qed.

Lemma split_at_separator (sep : ascii) (a b : string) :
  JS.all_chars (other_than sep) a = true ->
  JS.split sep (a ++ String sep b)%string = a :: JS.split sep b.
Proof.
  induction a as [|c a IH]; simpl.
  - intros _. now rewrite Ascii.eqb_refl.
  - rewrite all_chars_cons, andb_true_iff. unfold other_than at 1.
    intros [Hc Ha].
    destruct (Ascii.eqb c sep); [discriminate |].
    now rewrite (IH Ha).
Qed.

Lemma trimEnd_no_space (s : string) :
  JS.all_chars (fun c => negb (JS.is_space c)) s = true -> JS.trimEnd s = s.
Proof.
  induction s as [|c s IH]; [reflexivity |].
  rewrite all_chars_cons, andb_true_iff. intros [Hc Hs].
  simpl. rewrite (IH Hs).
  destruct s; [| reflexivity].
  now destruct (JS.is_space c).
Qed.

Lemma trimStart_no_space (s : string) :
  JS.all_chars (fun c => negb (JS.is_space c)) s = true -> JS.trimStart s = s.
Proof.
  destruct s as [|c s]; [reflexivity |].
  rewrite all_chars_cons, andb_true_iff. intros [Hc _].
  simpl. now destruct (JS.is_space c).
Qed.

End StringFacts.

Section DigitFacts.

(** The ten characters that [is_digit] accepts. *)
Lemma is_digit_cases (c : ascii) :
  JS.is_digit c = true ->
  In c ["0"; "1"; "2"; "3"; "4"; "5"; "6"; "7"; "8"; "9"]%char.
Proof.
  destruct c as [[] [] [] [] [] [] [] []]; vm_compute; intros H;
    try discriminate H; tauto.
Qed.

Ltac by_digit_cases H :=
  apply is_digit_cases in H; simpl in H;
  repeat (destruct H as [H | H]; [subst; reflexivity |]);
  contradiction.

Lemma digit_not_space c : JS.is_digit c = true -> negb (JS.is_space c) = true.
Proof. intros H. by_digit_cases H. Qed.

Lemma digit_not_comma c : JS.is_digit c = true -> other_than "," c = true.
Proof. intros H. by_digit_cases H. Qed.

Lemma digit_not_colon c : JS.is_digit c = true -> other_than ":" c = true.
Proof. intros H. by_digit_cases H. Qed.

Lemma digit_or_colon_not_comma c :
  JS.is_digit c || Ascii.eqb c ":" = true -> other_than "," c = true.
Proof.
  rewrite orb_true_iff. intros [H | H].
  - now apply digit_not_comma.
  - apply Ascii.eqb_eq in H. now subst.
Qed.

Lemma digit_no_sign c rest :
  JS.is_digit c = true -> JS.strip_sign (String c rest) = (false, String c rest).
Proof. intros H. by_digit_cases H. Qed.

Lemma digit_no_radix_mark c :
  JS.is_digit c = true ->
  Ascii.eqb (JS.lower c) "x" = false /\ Ascii.eqb (JS.lower c) "o" = false
  /\ Ascii.eqb (JS.lower c) "b" = false.
Proof.
  intros H. apply is_digit_cases in H; simpl in H.
  repeat (destruct H as [H | H]; [subst; repeat split; reflexivity |]).
  contradiction.
Qed.

Lemma digits_no_radix_literal s :
  JS.all_chars JS.is_digit s = true -> JS.radix_literal s = None.
Proof.
  destruct s as [|c [|p ds]]; try reflexivity.
  - intros _. simpl. now destruct c as [[] [] [] [] [] [] [] []].
  - rewrite !all_chars_cons, !andb_true_iff. intros (_ & Hp & _).
    destruct (digit_no_radix_mark p Hp) as (Hx & Ho & Hb).
    unfold JS.radix_literal. rewrite Hx, Ho, Hb.
    now destruct c as [[] [] [] [] [] [] [] []].
Qed.

Lemma digits_not_Infinity c rest :
  JS.is_digit c = true -> String.eqb (String c rest) "Infinity" = false.
Proof. intros H. by_digit_cases H. Qed.

(** [Number] on a (possibly empty) run of decimal digits. *)
Lemma Number_digits (s : string) :
  JS.all_chars JS.is_digit s = true ->
  JS.Number s = JS.of_Z false (JS.digits_value 10 0 s).
Proof.
  intros Hd.
  assert (Hsp : JS.all_chars (fun c => negb (JS.is_space c)) s = true)
    by (revert Hd; apply all_chars_weaken, digit_not_space).
  unfold JS.Number, JS.trim.
  rewrite (trimStart_no_space s Hsp), (trimEnd_no_space s Hsp).
  destruct s as [|c rest]; [reflexivity |].
  cbn [JS.truthy]. rewrite (digits_no_radix_literal _ Hd).
  pose proof Hd as Hc. rewrite all_chars_cons, andb_true_iff in Hc.
  destruct Hc as [Hc _].
  unfold JS.decimal_literal.
  rewrite (digit_no_sign c rest Hc), (digits_not_Infinity c rest Hc).
  rewrite (span_all _ _ Hd). cbn [JS.truthy orb JS.exponent_part String.length].
  rewrite append_empty_r. unfold JS.of_decimal. cbn [Z.of_nat Z.sub Z.leb Z.compare Z.opp].
  now rewrite Z.pow_0_r, Z.mul_1_r.
Qed.

(** [parseInt] on a non-empty run of decimal digits. *)
Lemma parseInt_digits (s : string) :
  JS.all_chars JS.is_digit s = true -> JS.truthy s = true ->
  JS.parseInt s = JS.of_Z false (JS.digits_value 10 0 s).
Proof.
  intros Hd Hne.
  assert (Hsp : JS.all_chars (fun c => negb (JS.is_space c)) s = true)
    by (revert Hd; apply all_chars_weaken, digit_not_space).
  unfold JS.parseInt. rewrite (trimStart_no_space s Hsp).
  destruct s as [|c rest]; [discriminate |].
  pose proof Hd as Hc. rewrite all_chars_cons, andb_true_iff in Hc.
  destruct Hc as [Hc Hrest].
  rewrite (digit_no_sign c rest Hc).
  assert (Hsel :
    match String c rest with
    | String "0" (String p rest0) =>
        if Ascii.eqb (JS.lower p) "x" then (16%Z, rest0) else (10%Z, String c rest)
    | _ => (10%Z, String c rest)
    end = (10%Z, String c rest)).
  { destruct rest as [|p rest0].
    - now destruct c as [[] [] [] [] [] [] [] []].
    - rewrite all_chars_cons, andb_true_iff in Hrest.
      destruct (digit_no_radix_mark p (proj1 Hrest)) as (Hx & _).
      rewrite Hx. now destruct c as [[] [] [] [] [] [] [] []]. }
  rewrite Hsel.
  change (JS.is_radix_digit 10) with JS.is_digit.
  rewrite (span_all _ _ Hd). reflexivity.
Qed.

End DigitFacts.

(* ===================================================================== *)
(** * The time codec *)
(* ===================================================================== *)

Section TimeCodec.

Variables hh mm ss : string.
Hypothesis Hhh : digits hh.
Hypothesis Hmm : digits mm.
Hypothesis Hss : digits ss.

Lemma split_clock :
  JS.split ":" (clock hh mm ss) = [hh; mm; ss].
Proof.
  unfold clock.
  change (hh ++ ":" ++ mm ++ ":" ++ ss)%string
    with (hh ++ String ":" (mm ++ String ":" ss))%string.
  rewrite split_at_separator by (revert Hhh; apply all_chars_weaken, digit_not_colon).
  rewrite split_at_separator by (revert Hmm; apply all_chars_weaken, digit_not_colon).
  rewrite split_no_separator by (revert Hss; apply all_chars_weaken, digit_not_colon).
  reflexivity.
Qed.

Lemma all_chars_append (p : ascii -> bool) (a b : string) :
  JS.all_chars p a = true -> JS.all_chars p b = true ->
  JS.all_chars p (a ++ b) = true.
Proof.
  intros Ha Hb. induction a as [|c a IH]; [exact Hb |].
  rewrite all_chars_cons, andb_true_iff in Ha. destruct Ha as [Hc Ha].
  change (String c a ++ b)%string with (String c (a ++ b)).
  rewrite all_chars_cons, Hc. now apply IH.
Qed.

Lemma clock_no_comma :
  JS.all_chars (other_than ",") (clock hh mm ss) = true.
Proof.
  unfold clock.
  change (hh ++ ":" ++ mm ++ ":" ++ ss)%string
    with (hh ++ String ":" (mm ++ String ":" ss))%string.
  apply all_chars_append;
    [revert Hhh; apply all_chars_weaken, digit_not_comma |].
  rewrite all_chars_cons. apply andb_true_intro; split; [reflexivity |].
  apply all_chars_append;
    [revert Hmm; apply all_chars_weaken, digit_not_comma |].
  rewrite all_chars_cons. apply andb_true_intro; split; [reflexivity |].
  revert Hss; apply all_chars_weaken, digit_not_comma.
Qed.

Lemma numbers_of_clock :
  List.map JS.Number (JS.split ":" (clock hh mm ss))
  = [component hh; component mm; component ss].
Proof.
  rewrite split_clock. cbn [List.map].
  now rewrite !Number_digits by assumption.
Qed.

(** With a milliseconds component after the comma. *)
Lemma parseTime_with_ms (ms : string) :
  digits ms ->
  VideoPlayer.parseTime (clock hh mm ss ++ "," ++ ms)
  = (component hh * 3600 + component mm * 60 + component ss
     + component ms / 1000)%float.
Proof.
  intros Hms. unfold VideoPlayer.parseTime.
  change (clock hh mm ss ++ "," ++ ms)%string
    with (clock hh mm ss ++ String "," ms)%string.
  rewrite (split_at_separator "," (clock hh mm ss) ms) by apply clock_no_comma.
  rewrite (split_no_separator "," ms)
    by (revert Hms; apply all_chars_weaken, digit_not_comma).
  cbn [nth nth_error]. rewrite numbers_of_clock.
  cbn [JS.number_at nth].
  destruct ms as [|c rest].
  - reflexivity.
  - cbn [JS.truthy]. now rewrite parseInt_digits.
Qed.

(** With neither comma nor milliseconds. *)
Lemma parseTime_without_ms :
  VideoPlayer.parseTime (clock hh mm ss)
  = (component hh * 3600 + component mm * 60 + component ss
     + component "0" / 1000)%float.
Proof.
  unfold VideoPlayer.parseTime.
  rewrite (split_no_separator "," (clock hh mm ss)) by apply clock_no_comma.
  cbn [nth nth_error]. rewrite numbers_of_clock.
  reflexivity.
Qed.

End TimeCodec.

(** C2: for a timestamp [hh:mm:ss,ms] whose components are decimal
    digits, [parseTime] returns [h*3600 + m*60 + s + ms/1000] computed on
    doubles, where an empty milliseconds component (a trailing comma) and
    a missing one (no comma) both count as zero; the three sample
    timestamps parse to 3723.5, 0 and 1. *)
Theorem parseTime_formula (hh mm ss ms : string) :
  digits hh -> digits mm -> digits ss -> digits ms ->
  VideoPlayer.parseTime (clock hh mm ss ++ "," ++ ms)
  = (component hh * 3600 + component mm * 60 + component ss
     + component ms / 1000)%float
  /\ VideoPlayer.parseTime (clock hh mm ss ++ ",")
     = (component hh * 3600 + component mm * 60 + component ss
        + JS.of_Z false 0 / 1000)%float
  /\ VideoPlayer.parseTime (clock hh mm ss)
     = (component hh * 3600 + component mm * 60 + component ss
        + JS.of_Z false 0 / 1000)%float
  /\ VideoPlayer.parseTime "01:02:03,500" = 3723.5%float
  /\ VideoPlayer.parseTime "00:00:00,000" = 0%float
  /\ VideoPlayer.parseTime "00:00:01," = 1%float.
Proof.
  intros Hhh Hmm Hss Hms.
  split; [now apply parseTime_with_ms |].
  split; [exact (parseTime_with_ms hh mm ss Hhh Hmm Hss "" eq_refl) |].
  split; [now apply parseTime_without_ms |].
  repeat split; vm_compute; reflexivity.
Qed.

Lemma parseTime_formula_witness :
  VideoPlayer.parseTime "12:34:56,789"
  = (component "12" * 3600 + component "34" * 60 + component "56"
     + component "789" / 1000)%float.
Proof.
  exact (proj1 (parseTime_formula "12" "34" "56" "789"
                  eq_refl eq_refl eq_refl eq_refl)).
Defined.

(** C9: the [parseTime] of the video player and the [parseTime] of the
    subtitle list return the same value on every string. *)
Theorem parseTime_copies_agree (timeStr : string) :
  VideoPlayer.parseTime timeStr = SubtitleList.parseTime timeStr.
Proof. reflexivity. Qed.

(* ===================================================================== *)
(** * The active caption *)
(* ===================================================================== *)

Lemma in_range_test (t : float) (c : SubtitleItem) :
  JS.ge t (VideoPlayer.parseTime (startTime c))
  && JS.le t (VideoPlayer.parseTime (endTime c)) = true
  <-> in_range t c.
Proof. unfold in_range, JS.ge, JS.le. now rewrite andb_true_iff. Qed.

Lemma activeSubtitle_none (subs : list SubtitleItem) (t : float) :
  VideoPlayer.activeSubtitle subs t = None
  <-> Forall (fun c => ~ in_range t c) subs.
Proof.
  unfold VideoPlayer.activeSubtitle.
  induction subs as [|c subs IH]; simpl.
  - split; [constructor | reflexivity].
  - pose proof (in_range_test t c) as Hc.
    destruct (JS.ge t _ && JS.le t _).
    + split; [discriminate |].
      intros H. inversion H; subst. exfalso. now apply H2, Hc.
    + rewrite IH. split.
      * intros H. constructor; [| exact H].
        intros Hin. apply Hc in Hin. discriminate.
      * intros H. now inversion H.
Qed.

Lemma activeSubtitle_some (subs : list SubtitleItem) (t : float) (c : SubtitleItem) :
  VideoPlayer.activeSubtitle subs t = Some c
  <-> exists before after,
        subs = before ++ c :: after
        /\ Forall (fun x => ~ in_range t x) before
        /\ in_range t c.
Proof.
  unfold VideoPlayer.activeSubtitle.
  induction subs as [|x subs IH]; simpl.
  - split; [discriminate |].
    intros (before & after & H & _). now destruct before.
  - pose proof (in_range_test t x) as Hx.
    destruct (JS.ge t _ && JS.le t _).
    + split.
      * intros H. injection H as <-. exists [], subs.
        repeat split; [constructor | apply Hx | apply Hx]; reflexivity.
      * intros (before & after & H & Hb & Hc).
        destruct before as [|y before]; simpl in H.
        -- now injection H as -> _.
        -- injection H as -> _. inversion Hb; subst.
           exfalso. now apply H1, Hx.
    + rewrite IH. split.
      * intros (before & after & -> & Hb & Hc).
        exists (x :: before), after. repeat split; try apply Hc.
        constructor; [| exact Hb].
        intros Hin. apply Hx in Hin. discriminate.
      * intros (before & after & H & Hb & Hc).
        destruct before as [|y before]; simpl in H.
        -- injection H as -> _. apply Hx in Hc. discriminate.
        -- injection H as -> ->. exists before, after.
           inversion Hb; subst. repeat split; try apply Hc. assumption.
Qed.

(** C1: the active caption is the first caption of the list whose range
    [start, end] contains the playback time, ends included, and there is
    none exactly when no caption's range contains it; on the two-caption
    list of the specification the first caption is active at 2.0, none at
    3.5 and the second at 6.0. *)
Theorem activeSubtitle_first_in_range (subs : list SubtitleItem) (t : float) :
  (forall c,
      VideoPlayer.activeSubtitle subs t = Some c
      <-> exists before after,
            subs = before ++ c :: after
            /\ Forall (fun x => ~ in_range t x) before
            /\ in_range t c)
  /\ (VideoPlayer.activeSubtitle subs t = None
      <-> Forall (fun c => ~ in_range t c) subs)
  /\ (let first := caption "00:00:01,000" "00:00:03,000" in
      let second := caption "00:00:04,000" "00:00:06,000" in
      VideoPlayer.activeSubtitle [first; second] 2.0 = Some first
      /\ VideoPlayer.activeSubtitle [first; second] 3.5 = None
      /\ VideoPlayer.activeSubtitle [first; second] 6.0 = Some second).
Proof.
  split; [intros c; apply activeSubtitle_some |].
  split; [apply activeSubtitle_none |].
  repeat split; vm_compute; reflexivity.
Qed.

(* ===================================================================== *)
(** * The seek guard *)
(* ===================================================================== *)

(** C4: with the player mounted and reporting position [p], an external
    time [t] is written into the player exactly when [|p - t| > 0.5] on
    doubles, and nothing is written otherwise (nor while no player is
    mounted); from 10.2, a request for 10.4 writes nothing and a request
    for 12.0 seeks to 12.0. *)
Theorem syncCurrentTime_guard (p t : float) :
  (VideoPlayer.syncCurrentTime (Some p) t = [VideoPlayer.SetCurrentTime t]
   <-> (0.5 <? abs (p - t))%float = true)
  /\ (VideoPlayer.syncCurrentTime (Some p) t = []
      <-> (0.5 <? abs (p - t))%float = false)
  /\ VideoPlayer.syncCurrentTime None t = []
  /\ VideoPlayer.syncCurrentTime (Some 10.2%float) 10.4 = []
  /\ VideoPlayer.syncCurrentTime (Some 10.2%float) 12.0
     = [VideoPlayer.SetCurrentTime 12.0].
Proof.
  unfold VideoPlayer.syncCurrentTime, JS.gt.
  destruct (0.5 <? abs (p - t))%float.
  - repeat split; try discriminate; vm_compute; reflexivity.
  - repeat split; try discriminate; vm_compute; reflexivity.
Qed.

(* ===================================================================== *)
(** * Running code: one request at a time *)
(* ===================================================================== *)

Section Running.

Variable p : Provider.

Lemma run_ret {R : Type} (r : R) (w : World) :
  run p (Ret r) w ≈ Ret (w, r).
Proof. unfold run. rewrite interp_state_ret. reflexivity. Qed.

Lemma run_trigger {X : Type} (e : effectE X) (w : World) :
  run p (ITree.trigger e) w ≈ Ret (record w e, reply p w e).
Proof. unfold run. rewrite interp_state_trigger. reflexivity. Qed.

Lemma run_bind {A B : Type} (t : itree effectE A) (k : A -> itree effectE B)
      (w : World) :
  run p (ITree.bind t k) w
  ≈ ITree.bind (run p t w) (fun wa => run p (k (snd wa)) (fst wa)).
Proof. unfold run. rewrite interp_state_bind. reflexivity. Qed.

(** A request followed by the rest of the code. *)
Lemma run_request {X B : Type} (e : effectE X) (k : X -> itree effectE B)
      (w : World) :
  run p (ITree.bind (ITree.trigger e) k) w
  ≈ run p (k (reply p w e)) (record w e).
Proof. rewrite run_bind, run_trigger, bind_ret_l. reflexivity. Qed.

(** Code that returns, followed by the rest of the code. *)
Lemma run_then {A B : Type} (t : itree effectE A) (k : A -> itree effectE B)
      (w w1 : World) (a : A) :
  run p t w ≈ Ret (w1, a) ->
  run p (ITree.bind t k) w ≈ run p (k a) w1.
Proof. intros H. rewrite run_bind, H, bind_ret_l. reflexivity. Qed.

End Running.

(* ===================================================================== *)
(** * Export *)
(* ===================================================================== *)

Lemma map_index_length {A B : Type} (f : A -> nat -> B) (l : list A) (from : nat) :
  List.length (App.map_index f from l) = List.length l.
Proof.
  revert from. induction l as [|x l IH]; intros from; simpl;
    [reflexivity | now rewrite IH].
Qed.

Lemma map_index_nth {A B : Type} (f : A -> nat -> B) (l : list A) (from i : nat) (x : A) :
  nth_error l i = Some x ->
  nth_error (App.map_index f from l) i = Some (f x (from + i)).
Proof.
  revert from i. induction l as [|y l IH]; intros from i H.
  - now destruct i.
  - destruct i as [|i]; simpl in *.
    + injection H as ->. now rewrite Nat.add_0_r.
    + rewrite (IH (S from) i H). f_equal. f_equal. lia.
Qed.

(** C3: for a non-empty caption list, the export hands the browser one
    text and downloads it as [subtitles.srt]; the text is the blocks
    joined by a line feed, one block per caption, the block at position
    [i] being [(i+1)], the line [start --> end] with the timestamps as
    they are, the translated text and the original text, each followed
    by a line feed; the single caption of the specification exports as
    the five-line text given there. *)
Theorem downloadSRT_text (p : Provider) (st : AppState) (w : World) :
  subtitles st <> [] ->
  let content := App.srtContent (subtitles st) in
  let url := object_url p (OfBlob content "text/plain") in
  run p (App.downloadSRT st) w
  ≈ Ret (logged w [Called (CreateObjectURL (OfBlob content "text/plain"));
                    Called (AnchorClick url "subtitles.srt");
                    Called (RevokeObjectURL url)], tt)
  /\ (exists blocks,
         content = JS.join LF blocks
         /\ List.length blocks = List.length (subtitles st)
         /\ forall i c, nth_error (subtitles st) i = Some c ->
                        nth_error blocks i = Some (block_text i c))
  /\ App.srtContent
       [{| startTime := "00:00:01,000"; endTime := "00:00:02,000";
           originalText := "Hi"; translatedText := "你好" |}]
     = ("1" ++ LF ++ "00:00:01,000 --> 00:00:02,000" ++ LF
        ++ "你好" ++ LF ++ "Hi" ++ LF)%string.
Proof.
  intros Hne content url. split; [| split].
  - unfold App.downloadSRT.
    destruct (subtitles st) as [|c rest] eqn:Hsubs; [contradiction |].
    cbn [List.length Nat.eqb].
    rewrite run_request, run_request, run_trigger.
    unfold logged, record; cbn [app queries log reply].
    rewrite <- !app_assoc. reflexivity.
  - exists (App.map_index App.srtBlock 0 (subtitles st)).
    split; [reflexivity |]. split; [apply map_index_length |].
    intros i c H. now rewrite (map_index_nth _ _ 0 i c H).
  - vm_compute. reflexivity.
Qed.

Lemma downloadSRT_text_witness :
  exists blocks,
    App.srtContent (subtitles one_caption) = JS.join LF blocks
    /\ List.length blocks = 1%nat.
Proof.
  destruct (downloadSRT_text quiet_provider one_caption (start one_caption))
    as (_ & (blocks & Hjoin & Hlen & _) & _).
  - discriminate.
  - exists blocks. split; [exact Hjoin | exact Hlen].
Defined.

(* ===================================================================== *)
(** * The generation workflow *)
(* ===================================================================== *)

Section Polling.

Variable p : Provider.

Lemma run_poll_done name st w :
  GeminiService.state_is st "PROCESSING" = false ->
  run p (GeminiService.poll name st) w ≈ Ret (w, inr tt).
Proof.
  intros H. unfold GeminiService.poll. rewrite unfold_iter.
  unfold GeminiService.poll_step at 1. rewrite H.
  rewrite bind_ret_l. apply run_ret.
Qed.

Lemma run_poll_turn name st w :
  GeminiService.state_is st "PROCESSING" = true ->
  run p (GeminiService.poll name st) w
  ≈ match get_reply p (queries w) with
    | inl err => Ret (record (record w (Sleep 2000)) (FilesGet name), inl err)
    | inr r =>
        let st' := RemoteFile.state (GeminiService.unwrap r) in
        if GeminiService.state_is st' "FAILED"
        then Ret (record (record w (Sleep 2000)) (FilesGet name),
                  inl (JsError.Error "Video processing failed on Gemini servers."))
        else run p (GeminiService.poll name st')
                 (record (record w (Sleep 2000)) (FilesGet name))
    end.
Proof.
  intros H. unfold GeminiService.poll. rewrite unfold_iter.
  unfold GeminiService.poll_step at 1. rewrite H.
  rewrite !bind_bind, run_request, bind_bind, run_request.
  cbn [reply record queries].
  destruct (get_reply p (queries w)) as [err | r].
  - rewrite bind_ret_l. apply run_ret.
  - cbn zeta. destruct (GeminiService.state_is _ "FAILED").
    + rewrite bind_ret_l. apply run_ret.
    + rewrite bind_ret_l. unfold run.
      rewrite interp_state_tau, tau_eutt. reflexivity.
Qed.

Lemma polled_turn w name k :
  polled (record (record w (Sleep 2000)) (FilesGet name)) name k
  = polled w name (S k).
Proof.
  unfold polled, polls. cbn [record app queries log repeat concat].
  f_equal; [lia |]. rewrite <- !app_assoc. reflexivity.
Qed.

Lemma polled_none w name : polled w name 0 = w.
Proof.
  destruct w as [a q l]. unfold polled, polls; cbn.
  now rewrite Nat.add_0_r, app_nil_r.
Qed.

(** The loop entered on PROCESSING, with [k] further PROCESSING replies
    and then the state [s]: [k + 1] turns. *)
Lemma run_poll_until (name : option string) (s : option string) (k : nat) :
  forall w,
    (forall j, j < k -> status_reply p (queries w + j) = Some (Some "PROCESSING")) ->
    status_reply p (queries w + k) = Some s ->
    GeminiService.state_is s "PROCESSING" = false ->
    run p (GeminiService.poll name (Some "PROCESSING")) w
    ≈ Ret (polled w name (S k), poll_result s).
Proof.
  induction k as [|k IH]; intros w Hbusy Hend Hs.
  - rewrite run_poll_turn by reflexivity.
    unfold status_reply in Hend. rewrite Nat.add_0_r in Hend.
    destruct (get_reply p (queries w)) as [err | r]; [discriminate |].
    injection Hend as Hend. cbn zeta. rewrite Hend.
    rewrite <- polled_turn, polled_none. unfold poll_result.
    destruct (GeminiService.state_is s "FAILED"); [reflexivity |].
    now apply run_poll_done.
  - rewrite run_poll_turn by reflexivity.
    pose proof (Hbusy 0 ltac:(lia)) as H0.
    unfold status_reply in H0. rewrite Nat.add_0_r in H0.
    destruct (get_reply p (queries w)) as [err | r]; [discriminate |].
    injection H0 as H0. cbn zeta. rewrite H0.
    cbn [GeminiService.state_is String.eqb Ascii.eqb Bool.eqb].
    rewrite <- polled_turn.
    apply IH.
    + intros j Hj. cbn [record queries].
      replace (S (queries w) + j) with (queries w + S j) by lia.
      apply Hbusy. lia.
    + cbn [record queries].
      replace (S (queries w) + k) with (queries w + S k) by lia. exact Hend.
    + exact Hs.
Qed.

End Polling.

Section Workflow.

Variable JSON_parse : string -> option (list SubtitleItem).
Variable p : Provider.
Variable f : File.t.
Variable targetLanguage : Language.
Variable cb : option (string -> Update).

Lemma run_notify (msg : string) (w : World) :
  run p (GeminiService.notify (updating cb) msg) w ≈ Ret (told cb msg w, tt).
Proof.
  unfold GeminiService.notify, updating, told.
  destruct cb as [g |]; cbn [option_map].
  - apply run_trigger.
  - apply run_ret.
Qed.

Lemma run_parse_response (response : GenerateResponse) (w : World) :
  exists res more,
    run p (GeminiService.parse_response JSON_parse response) w
    ≈ Ret (logged w more, res)
    /\ Forall console more
    /\ (forall t data,
           text response = Some t -> JS.truthy t = true ->
           JSON_parse t = Some data -> res = inr data /\ more = []).
Proof.
  unfold GeminiService.parse_response.
  assert (Hsame : logged w [] = w).
  { destruct w. unfold logged; cbn. now rewrite app_nil_r. }
  destruct (text response) as [t |].
  - destruct (JS.truthy t) eqn:Ht.
    + destruct (JSON_parse t) as [data |] eqn:Hparse.
      * exists (inr data), []. rewrite Hsame. split; [apply run_ret |].
        split; [constructor |].
        intros t' data' [= <-] _ H. rewrite Hparse in H. now injection H as <-.
      * exists (inl (JsError.Error "Failed to parse generated subtitles.")),
          [Called (ConsoleError "JSON Parse Error:"); Called (ConsoleLog "Raw Response:")].
        split.
        -- rewrite run_request, run_request, run_ret.
           unfold logged, record; cbn [app queries log].
           rewrite <- app_assoc. reflexivity.
        -- split; [repeat constructor |].
           intros t' data' [= <-] _ H. rewrite Hparse in H. discriminate.
    + eexists _, []. rewrite Hsame. split; [apply run_ret |].
      split; [constructor |].
      intros t' data' [= <-] H. rewrite Ht in H. discriminate.
  - eexists _, []. rewrite Hsame. split; [apply run_ret |].
    split; [constructor |]. intros t' data' H. discriminate.
Qed.

Lemma run_generate (fileUri : string) (w : World) :
  exists res more,
    run p (GeminiService.generate JSON_parse (mimeType_of f) fileUri
             targetLanguage (updating cb)) w
    ≈ Ret (logged (told cb "Generating subtitles..." w)
             (Called (GenerateContent (request_for f targetLanguage fileUri)) :: more),
           res)
    /\ Forall console more
    /\ (forall t data,
           generate_reply p = inr {| text := Some t |} -> JS.truthy t = true ->
           JSON_parse t = Some data -> res = inr data /\ more = []).
Proof.
  unfold GeminiService.generate.
  set (w1 := told cb "Generating subtitles..." w).
  set (req := GenerateContent _).
  destruct (generate_reply p) as [err | response] eqn:Hreply.
  - exists (inl err), []. split.
    + rewrite (run_then p _ _ w w1 tt) by apply run_notify.
      rewrite run_request. unfold req at 1. cbn [reply]. rewrite Hreply.
      rewrite run_ret. reflexivity.
    + split; [constructor | discriminate].
  - destruct (run_parse_response response (record w1 req)) as (res & more & Hrun & Hq & Hok).
    exists res, more. split.
    + rewrite (run_then p _ _ w w1 tt) by apply run_notify.
      rewrite run_request. unfold req at 1. cbn [reply]. rewrite Hreply, Hrun.
      unfold logged, record, req; cbn [app queries log].
      rewrite <- app_assoc. reflexivity.
    + split; [exact Hq |].
      intros t data [= ->]. apply Hok. reflexivity.
Qed.

Lemma told_queries msg w : queries (told cb msg w) = queries w.
Proof. unfold told. now destruct cb. Qed.

Lemma run_attempt (w : World) (r : FileResponse) (u : string) (s : option string)
      (k : nat) :
  upload_reply p = inr r ->
  RemoteFile.uri (GeminiService.unwrap r) = Some u ->
  JS.truthy u = true ->
  (forall i, i < k -> seen p w i = Some (Some "PROCESSING")) ->
  seen p w k = Some s ->
  GeminiService.state_is s "PROCESSING" = false ->
  let w1 := after_polling cb f w (RemoteFile.name (GeminiService.unwrap r)) k in
  run p (GeminiService.attempt JSON_parse f targetLanguage (updating cb)) w
  ≈ if (0 <? k)%nat && GeminiService.state_is s "FAILED"
    then Ret (w1, inl (JsError.Error "Video processing failed on Gemini servers."))
    else run p (GeminiService.generate JSON_parse (mimeType_of f) u
                  targetLanguage (updating cb)) w1.
Proof.
  intros Hup Huri Hu Hbusy Hend Hs w1.
  unfold GeminiService.attempt.
  rewrite (run_then p _ _ w _ tt) by apply run_notify.
  rewrite run_request. cbn [reply]. rewrite Hup.
  rewrite Huri. cbn [GeminiService.truthy_opt]. rewrite Hu.
  rewrite (run_then p _ _ _ _ tt) by apply run_notify.
  fold (mimeType_of f). fold (upload_of f).
  set (w0 := told cb "Processing video..." _).
  assert (Hq : queries w0 = queries w).
  { unfold w0. rewrite told_queries. cbn [record queries]. apply told_queries. }
  destruct k as [|k].
  - cbn [seen] in Hend. rewrite Hup in Hend. injection Hend as ->.
    rewrite (run_then p _ _ w0 w0 (inr tt)) by now apply run_poll_done.
    cbn [Nat.ltb Nat.leb andb]. subst w1. unfold after_polling.
    rewrite polled_none. reflexivity.
  - pose proof (Hbusy 0 ltac:(lia)) as H0. cbn [seen] in H0.
    rewrite Hup in H0. injection H0 as ->.
    rewrite (run_then p _ _ w0 (polled w0 (RemoteFile.name (GeminiService.unwrap r)) (S k))
               (poll_result s)).
    + cbn [Nat.ltb Nat.leb andb]. unfold poll_result.
      destruct (GeminiService.state_is s "FAILED"); [apply run_ret | reflexivity].
    + apply run_poll_until.
      * intros j Hj. rewrite Hq. apply (Hbusy (S j)). lia.
      * rewrite Hq. exact Hend.
      * exact Hs.
Qed.

Lemma told_log msg w : log (told cb msg w) = log w.
Proof. unfold told. now destruct cb. Qed.

Lemma after_polling_log w name k :
  log (after_polling cb f w name k) = log w ++ upload_of f :: polls name k.
Proof.
  unfold after_polling, polled, logged; cbn [log].
  rewrite told_log; cbn [log]. rewrite told_log.
  now rewrite <- app_assoc.
Qed.

Lemma after_polling_queries w name k :
  queries (after_polling cb f w name k) = queries w + k.
Proof.
  unfold after_polling, polled, logged; cbn [queries].
  rewrite told_queries; cbn [queries]. now rewrite told_queries.
Qed.

Lemma run_service (w w1 : World) (res : JsError.t + list SubtitleItem) :
  run p (GeminiService.attempt JSON_parse f targetLanguage (updating cb)) w
  ≈ Ret (w1, res) ->
  run p (GeminiService.generateBilingualSubtitles JSON_parse f targetLanguage
           (updating cb)) w
  ≈ Ret (caught w1 res, res).
Proof.
  intros H. unfold GeminiService.generateBilingualSubtitles.
  rewrite (run_then p _ _ w w1 res H).
  destruct res as [err | data]; cbn [caught].
  - rewrite run_request. apply run_ret.
  - apply run_ret.
Qed.

Lemma waits_app (a b : list Call) : waits (a ++ b) = waits a + waits b.
Proof.
  induction a as [|[X e] a IH]; [reflexivity |].
  destruct e; cbn [waits List.app]; rewrite IH; reflexivity.
Qed.

Lemma waits_polls (name : option string) (k : nat) : waits (polls name k) = k.
Proof.
  induction k as [|k IH]; [reflexivity |].
  unfold polls in *. cbn [repeat concat List.app waits]. now rewrite IH.
Qed.

Lemma waits_console (calls : list Call) : Forall console calls -> waits calls = 0.
Proof.
  induction 1 as [|[X e] calls He _ IH]; [reflexivity |].
  destruct e; cbn in He; try contradiction; exact IH.
Qed.

Lemma no_generation_app (a b : list Call) :
  generation_attempted (a ++ b)
  = generation_attempted a || generation_attempted b.
Proof.
  induction a as [|[X e] a IH]; [reflexivity |].
  destruct e; cbn [generation_attempted List.app orb]; try exact IH; reflexivity.
Qed.

Lemma no_generation_polls (name : option string) (k : nat) :
  generation_attempted (polls name k) = false.
Proof.
  induction k as [|k IH]; [reflexivity |].
  unfold polls in *. cbn [repeat concat List.app generation_attempted]. exact IH.
Qed.

(** The upload response carries no resource identifier. *)
Lemma run_service_no_uri (w : World) (r : FileResponse) :
  upload_reply p = inr r ->
  GeminiService.truthy_opt (RemoteFile.uri (GeminiService.unwrap r)) = false ->
  run p (GeminiService.generateBilingualSubtitles JSON_parse f targetLanguage
           (updating cb)) w
  ≈ Ret (logged (told cb "Uploading video to Gemini..." w)
           [upload_of f;
            Called (ConsoleError "Unexpected upload result:");
            Called (ConsoleError "Gemini API Error:")],
         inl (JsError.Error "Failed to upload file: URI is missing from response.")).
Proof.
  intros Hup Huri.
  rewrite (run_service w
             (logged (told cb "Uploading video to Gemini..." w)
                [upload_of f; Called (ConsoleError "Unexpected upload result:")])
             (inl (JsError.Error "Failed to upload file: URI is missing from response."))).
  - unfold caught, logged; cbn [app queries log]. now rewrite <- app_assoc.
  - unfold GeminiService.attempt.
    rewrite (run_then p _ _ w _ tt) by apply run_notify.
    rewrite run_request. cbn [reply]. rewrite Hup, Huri.
    rewrite run_request, run_ret.
    unfold logged, record, upload_of, mimeType_of; cbn [app queries log].
    now rewrite <- app_assoc.
Qed.

(** The workflow after [k] PROCESSING states and then the state [s]. *)
Lemma run_service_polled (w : World) (r : FileResponse) (u : string)
      (s : option string) (k : nat) :
  upload_reply p = inr r ->
  RemoteFile.uri (GeminiService.unwrap r) = Some u ->
  JS.truthy u = true ->
  (forall i, i < k -> seen p w i = Some (Some "PROCESSING")) ->
  seen p w k = Some s ->
  GeminiService.state_is s "PROCESSING" = false ->
  exists w' res rest,
    run p (GeminiService.generateBilingualSubtitles JSON_parse f targetLanguage
             (updating cb)) w
    ≈ Ret (w', res)
    /\ log w' = log w ++ upload_of f
                  :: polls (RemoteFile.name (GeminiService.unwrap r)) k ++ rest
    /\ waits rest = 0
    /\ queries w' = queries w + k
    /\ (if (0 <? k)%nat && GeminiService.state_is s "FAILED"
        then res = inl (JsError.Error "Video processing failed on Gemini servers.")
             /\ rest = [Called (ConsoleError "Gemini API Error:")]
             /\ app w' = app (told cb "Processing video..."
                                (told cb "Uploading video to Gemini..." w))
        else exists more,
            rest = Called (GenerateContent (request_for f targetLanguage u)) :: more
            /\ Forall console more
            /\ app w' = app (told cb "Generating subtitles..."
                               (told cb "Processing video..."
                                  (told cb "Uploading video to Gemini..." w)))
            /\ (forall t data,
                   generate_reply p = inr {| text := Some t |} ->
                   JS.truthy t = true -> JSON_parse t = Some data ->
                   res = inr data /\ more = [])).
Proof.
  intros Hup Huri Hu Hbusy Hend Hs.
  pose proof (run_attempt w r u s k Hup Huri Hu Hbusy Hend Hs) as Hrun.
  cbn zeta in Hrun.
  set (name := RemoteFile.name (GeminiService.unwrap r)) in *.
  destruct ((0 <? k)%nat && GeminiService.state_is s "FAILED").
  - eexists _, _, [Called (ConsoleError "Gemini API Error:")].
    split; [apply run_service, Hrun |].
    cbn [caught logged log queries]. rewrite after_polling_log, <- app_assoc.
    split; [reflexivity |]. split; [reflexivity |].
    split; [apply after_polling_queries |].
    repeat split.
    unfold after_polling, polled, logged, told; destruct cb; reflexivity.
  - destruct (run_generate u (after_polling cb f w name k))
      as (res & more & Hgen & Hconsole & Hok).
    rewrite Hgen in Hrun.
    exists (caught (logged (told cb "Generating subtitles..." (after_polling cb f w name k))
                      (Called (GenerateContent (request_for f targetLanguage u)) :: more))
                   res),
           res.
    destruct res as [err | data].
    + exists (Called (GenerateContent (request_for f targetLanguage u))
                :: more ++ [Called (ConsoleError "Gemini API Error:")]).
      split; [apply run_service, Hrun |].
      cbn [caught logged log queries]. rewrite told_log, after_polling_log.
      split; [now rewrite <- !app_assoc |].
      split;
        [cbn [waits]; rewrite waits_app, (waits_console more Hconsole); reflexivity |].
      split; [rewrite told_queries; apply after_polling_queries |].
      * exists (more ++ [Called (ConsoleError "Gemini API Error:")]).
        split; [reflexivity |].
        split; [apply Forall_app; split; [exact Hconsole | now repeat constructor] |].
        split; [unfold after_polling, polled, logged, told; destruct cb; reflexivity |].
        intros t data Hreply Ht Hparse.
        destruct (Hok t data Hreply Ht Hparse) as [H _]. discriminate.
    + exists (Called (GenerateContent (request_for f targetLanguage u)) :: more).
      split; [apply run_service, Hrun |].
      cbn [caught logged log queries]. rewrite told_log, after_polling_log.
      split; [now rewrite <- !app_assoc |].
      split; [cbn [waits]; apply (waits_console more Hconsole) |].
      split; [rewrite told_queries; apply after_polling_queries |].
      exists more. split; [reflexivity |]. split; [exact Hconsole |].
      split; [unfold after_polling, polled, logged, told; destruct cb; reflexivity |].
      exact Hok.
Qed.

End Workflow.

(** C8: when the upload response, read directly or through its [file]
    field, carries no resource identifier (none, or an empty one), the
    workflow throws "Failed to upload file: URI is missing from
    response." after the upload request and two console messages: no
    wait, no status query and no generation request is made. *)
Theorem missing_uri_fails
        (JSON_parse : string -> option (list SubtitleItem)) (p : Provider)
        (f : File.t) (targetLanguage : Language) (cb : option (string -> Update))
        (w : World) (r : FileResponse) :
  upload_reply p = inr r ->
  GeminiService.truthy_opt
    (RemoteFile.uri (match file_field r with
                     | Some wrapped => wrapped
                     | None => direct r
                     end)) = false ->
  exists w',
    run p (GeminiService.generateBilingualSubtitles JSON_parse f targetLanguage
             (updating cb)) w
    ≈ Ret (w', inl (JsError.Error
                      "Failed to upload file: URI is missing from response."))
    /\ log w' = log w ++ [upload_of f;
                          Called (ConsoleError "Unexpected upload result:");
                          Called (ConsoleError "Gemini API Error:")]
    /\ queries w' = queries w
    /\ waits (log w') = waits (log w)
    /\ generation_attempted (log w') = generation_attempted (log w).
Proof.
  intros Hup Huri.
  eexists. split; [apply (run_service_no_uri JSON_parse p f targetLanguage cb w r Hup Huri) |].
  cbn [logged log queries]. rewrite told_log, told_queries.
  repeat split.
  - rewrite waits_app. cbn. lia.
  - rewrite no_generation_app. cbn. apply orb_false_r.
Qed.

Lemma missing_uri_fails_witness :
  exists w',
    run no_uri_provider
        (GeminiService.generateBilingualSubtitles (fun _ => None) sample_file
           ENGLISH (updating None)) (start App.initialState)
    ≈ Ret (w', inl (JsError.Error
                      "Failed to upload file: URI is missing from response."))
    /\ log w' = [upload_of sample_file;
                 Called (ConsoleError "Unexpected upload result:");
                 Called (ConsoleError "Gemini API Error:")].
Proof.
  destruct (missing_uri_fails (fun _ => None) no_uri_provider sample_file ENGLISH
              None (start App.initialState) _ eq_refl eq_refl)
    as (w' & Hrun & Hlog & _).
  exists w'. split; [exact Hrun | exact Hlog].
Defined.

(** C7: when the workflow sees the state PROCESSING [k] times (the
    upload response first, then the replies to its status queries) and
    then another state, it makes exactly [k] waits, each of 2000 ms and
    each followed by one status query, all of them before anything else
    it does after the upload; if that other state is not FAILED, the next
    request is the generation request. *)
Theorem polling_waits
        (JSON_parse : string -> option (list SubtitleItem)) (p : Provider)
        (f : File.t) (targetLanguage : Language) (cb : option (string -> Update))
        (w : World) (r : FileResponse) (u : string) (s : option string) (k : nat) :
  upload_reply p = inr r ->
  RemoteFile.uri (GeminiService.unwrap r) = Some u ->
  JS.truthy u = true ->
  (forall i, i < k -> seen p w i = Some (Some "PROCESSING")) ->
  seen p w k = Some s ->
  s <> Some "PROCESSING" ->
  exists w' res rest,
    run p (GeminiService.generateBilingualSubtitles JSON_parse f targetLanguage
             (updating cb)) w
    ≈ Ret (w', res)
    /\ log w' = log w ++ upload_of f
                  :: concat (repeat [Called (Sleep 2000);
                                     Called (FilesGet (RemoteFile.name
                                                         (GeminiService.unwrap r)))] k)
                  ++ rest
    /\ waits rest = 0
    /\ waits (log w') = waits (log w) + k
    /\ queries w' = queries w + k
    /\ (s <> Some "FAILED" ->
        exists more,
          rest = Called (GenerateContent (request_for f targetLanguage u)) :: more).
Proof.
  intros Hup Huri Hu Hbusy Hend Hs.
  assert (Hs' : GeminiService.state_is s "PROCESSING" = false).
  { destruct s as [x |]; [| reflexivity]. cbn. apply String.eqb_neq. congruence. }
  destruct (run_service_polled JSON_parse p f targetLanguage cb w r u s k
              Hup Huri Hu Hbusy Hend Hs')
    as (w' & res & rest & Hrun & Hlog & Hwaits & Hqueries & Hcase).
  exists w', res, rest. split; [exact Hrun |].
  split; [exact Hlog |]. split; [exact Hwaits |].
  split.
  { rewrite Hlog, waits_app. unfold upload_of. cbn [waits].
    fold (polls (RemoteFile.name (GeminiService.unwrap r)) k).
    rewrite waits_app, waits_polls, Hwaits. lia. }
  split; [exact Hqueries |].
  intros Hnf.
  assert (Hnf' : GeminiService.state_is s "FAILED" = false).
  { destruct s as [x |]; [| reflexivity]. cbn. apply String.eqb_neq. congruence. }
  rewrite Hnf', andb_false_r in Hcase.
  destruct Hcase as (more & Hrest & _). now exists more.
Qed.

Lemma polling_waits_witness :
  exists w' res more,
    run twice_processing
        (GeminiService.generateBilingualSubtitles (fun _ => Some []) sample_file
           ENGLISH (updating None)) (start App.initialState)
    ≈ Ret (w', res)
    /\ log w' = [upload_of sample_file;
                 Called (Sleep 2000); Called (FilesGet (Some "files/abc"));
                 Called (Sleep 2000); Called (FilesGet (Some "files/abc"));
                 Called (GenerateContent
                           (request_for sample_file ENGLISH
                              "https://provider.example/files/abc"))] ++ more
    /\ waits (log w') = 2.
Proof.
  destruct (polling_waits (fun _ => Some []) twice_processing sample_file ENGLISH
              None (start App.initialState) (remote_file "PROCESSING")
              "https://provider.example/files/abc" (Some "ACTIVE") 2
              eq_refl eq_refl eq_refl)
    as (w' & res & rest & Hrun & Hlog & _ & Hwaits & _ & Hgen).
  - intros i Hi. destruct i as [|[|i]]; [reflexivity | reflexivity | lia].
  - reflexivity.
  - discriminate.
  - destruct Hgen as [more Hrest]; [discriminate |].
    exists w', res, more. split; [exact Hrun |].
    split; [| exact Hwaits].
    rewrite Hlog, Hrest. reflexivity.
Defined.

(* ===================================================================== *)
(** * File selection *)
(* ===================================================================== *)

(** C6: selecting a file larger than 4 GiB (4294967296 bytes) only
    raises the alert "File size exceeds the 4GB limit.": no request goes
    to the provider and the application state (file, video URL, subtitle
    list, processing state) is what it was, so a processing state that
    was idle stays idle. *)
Theorem oversized_file_rejected (p : Provider) (st : AppState) (f : File.t)
        (w : World) :
  (4294967296 < File.size f)%N ->
  exists w',
    run p (App.handleFileChange st (Some f)) w ≈ Ret (w', tt)
    /\ app w' = app w
    /\ log w' = log w ++ [Called (Alert "File size exceeds the 4GB limit.")]
    /\ queries w' = queries w
    /\ (status (processingState (app w)) = idle ->
        status (processingState (app w')) = idle).
Proof.
  intros Hsize.
  exists (logged w [Called (Alert "File size exceeds the 4GB limit.")]).
  split; [| repeat split; auto].
  unfold App.handleFileChange.
  change App.MAX_FILE_SIZE with 4294967296%N.
  apply N.ltb_lt in Hsize. rewrite Hsize.
  apply run_trigger.
Qed.

Lemma oversized_file_rejected_witness :
  exists w',
    run quiet_provider (App.handleFileChange App.initialState (Some huge_file))
        (start App.initialState)
    ≈ Ret (w', tt)
    /\ app w' = App.initialState
    /\ log w' = [Called (Alert "File size exceeds the 4GB limit.")].
Proof.
  destruct (oversized_file_rejected quiet_provider App.initialState huge_file
              (start App.initialState) eq_refl)
    as (w' & Hrun & Happ & Hlog & _).
  exists w'. split; [exact Hrun |]. split; [exact Happ | exact Hlog].
Defined.

(* ===================================================================== *)
(** * Starting a generation from the application *)
(* ===================================================================== *)

Lemma run_handleProcess
      (JSON_parse : string -> option (list SubtitleItem)) (p : Provider)
      (st : AppState) (f : File.t) (w w1 : World)
      (res : JsError.t + list SubtitleItem) :
  file st = Some f ->
  run p (GeminiService.generateBilingualSubtitles JSON_parse f (targetLanguage st)
           (updating (Some App.statusUpdate))) (starting w)
  ≈ Ret (w1, res) ->
  run p (App.handleProcess JSON_parse st) w ≈ Ret (finished w1 res, tt).
Proof.
  intros Hfile Hrun. unfold App.handleProcess. rewrite Hfile.
  unfold App.set. rewrite run_request. cbn [reply].
  change (Some App.statusCallback) with (updating (Some App.statusUpdate)).
  rewrite (run_then p _ _ _ w1 res Hrun).
  destruct res as [err | data]; cbn [finished].
  - rewrite run_request. apply run_trigger.
  - rewrite run_request. apply run_trigger.
Qed.

(** A FAILED state reported by a status query ends the generation in
    the [error] state, without a generation request. *)
Lemma failed_query_is_error
      (JSON_parse : string -> option (list SubtitleItem)) (p : Provider)
      (st : AppState) (f : File.t) (w : World) (r : FileResponse) (u : string)
      (k : nat) :
  file st = Some f ->
  upload_reply p = inr r ->
  RemoteFile.uri (GeminiService.unwrap r) = Some u ->
  JS.truthy u = true ->
  (forall i, i <= k -> seen p w i = Some (Some "PROCESSING")) ->
  seen p w (S k) = Some (Some "FAILED") ->
  exists w',
    run p (App.handleProcess JSON_parse st) w ≈ Ret (w', tt)
    /\ processingState (app w')
       = {| status := error;
            message :=
              Some "Failed to generate subtitles. Please try again. (Video processing failed on Gemini servers.)" |}
    /\ generation_attempted (log w') = generation_attempted (log w).
Proof.
  intros Hfile Hup Huri Hu Hbusy Hend.
  destruct (run_service_polled JSON_parse p f (targetLanguage st)
              (Some App.statusUpdate) (starting w) r u (Some "FAILED") (S k)
              Hup Huri Hu)
    as (w1 & res & rest & Hrun & Hlog & _ & _ & Hcase).
  - intros i Hi. apply (Hbusy i). lia.
  - exact Hend.
  - reflexivity.
  - cbn [Nat.ltb Nat.leb andb GeminiService.state_is] in Hcase.
    change (String.eqb "FAILED" "FAILED") with true in Hcase.
    destruct Hcase as (-> & -> & Happ).
    exists (finished w1 (inl (JsError.Error "Video processing failed on Gemini servers."))).
    split; [apply (run_handleProcess JSON_parse p st f w w1 _ Hfile Hrun) |].
    split; [reflexivity |].
    cbn [finished record log]. rewrite no_generation_app, Hlog.
    cbn [starting record log].
    rewrite no_generation_app. unfold upload_of. cbn [generation_attempted].
    rewrite no_generation_app, no_generation_polls. cbn.
    now rewrite !orb_false_r.
Qed.

(** C5, at the input where the code departs from it: the upload response
    itself reports FAILED.  The loop that checks for FAILED is not
    entered, the generation request is made, and the application ends in
    [completed] instead of [error]. *)
Theorem failed_upload_state_still_generates :
  exists w',
    run failed_upload (App.handleProcess (fun _ => Some []) selected)
        (start selected)
    ≈ Ret (w', tt)
    /\ log w' = [upload_of sample_file;
                 Called (GenerateContent
                           (request_for sample_file ENGLISH
                              "https://provider.example/files/abc"))]
    /\ generation_attempted (log w') = true
    /\ processingState (app w') = {| status := completed; message := None |}.
Proof.
  destruct (run_service_polled (fun _ => Some []) failed_upload sample_file ENGLISH
              (Some App.statusUpdate) (starting (start selected))
              (remote_file "FAILED") "https://provider.example/files/abc"
              (Some "FAILED") 0 eq_refl eq_refl eq_refl)
    as (w1 & res & rest & Hrun & Hlog & _ & _ & Hcase).
  - intros i Hi. lia.
  - reflexivity.
  - reflexivity.
  - cbn [Nat.ltb Nat.leb andb] in Hcase.
    destruct Hcase as (more & -> & _ & _ & Hok).
    destruct (Hok "[]" [] eq_refl eq_refl eq_refl) as [-> ->].
    exists (finished w1 (inr [])).
    split; [apply (run_handleProcess _ _ selected sample_file _ w1 _ eq_refl Hrun) |].
    cbn [finished record log app apply_update processingState].
    rewrite Hlog. repeat split.
Qed.

(* ===================================================================== *)
(** * The processing state *)
(* ===================================================================== *)

Section Emits.

Variable P : Update -> Prop.

Lemma emits_observe {R : Type} (t t' : itree effectE R) (u : Update) (n : nat) :
  observe t = observe t' -> emits u n t -> emits u n t'.
Proof. intros H. destruct n; simpl; [tauto |]. now rewrite H. Qed.

Lemma emits_bind {A B : Type} (k : A -> itree effectE B) (u : Update) (n : nat) :
  forall t : itree effectE A,
    emits u n (ITree.bind t k) ->
    emits u n t \/ exists a m, m <= n /\ emits u m (k a).
Proof.
  induction n as [|n IH]; intros t H; [contradiction |].
  apply (emits_observe _
           (match observe t with
            | RetF a => k a
            | TauF t' => Tau (ITree.bind t' k)
            | VisF e h => Vis e (fun x => ITree.bind (h x) k)
            end)) in H; [| reflexivity].
  simpl in *. destruct (observe t) as [a | t' | X e h]; simpl in H.
  - right. exists a, (S n). split; [lia | exact H].
  - destruct (IH t' H) as [Ht | (a & m & Hm & Hk)]; [now left |].
    right. exists a, m. split; [lia | exact Hk].
  - destruct H as [H | [x H]]; [left; now left |].
    destruct (IH (h x) H) as [Ht | (a & m & Hm & Hk)].
    + left. right. now exists x.
    + right. exists a, m. split; [lia | exact Hk].
Qed.

Lemma only_ret {R : Type} (r : R) : only P (Ret r : itree effectE R).
Proof. intros [|n] u H; contradiction. Qed.

Lemma only_bind {A B : Type} (t : itree effectE A) (k : A -> itree effectE B) :
  only P t -> (forall a, only P (k a)) -> only P (ITree.bind t k).
Proof.
  intros Ht Hk n u H.
  destruct (emits_bind k u n t H) as [H1 | (a & m & _ & H2)].
  - exact (Ht n u H1).
  - exact (Hk a m u H2).
Qed.

Lemma only_set (u : Update) : P u -> only P (ITree.trigger (SetState u)).
Proof.
  intros Hu [|n] u' H; [contradiction |].
  simpl in H. destruct H as [<- | [x H]]; [exact Hu |].
  destruct n; contradiction.
Qed.

Lemma only_request {X : Type} (e : effectE X) :
  match e with SetState _ => False | _ => True end ->
  only P (ITree.trigger e).
Proof.
  intros He [|n] u H; [contradiction |].
  simpl in H. destruct H as [H | [x H]].
  - destruct e; contradiction.
  - destruct n; contradiction.
Qed.

Lemma only_iter {I R : Type} (body : I -> itree effectE (I + R)) :
  (forall i, only P (body i)) -> forall i, only P (ITree.iter body i).
Proof.
  intros Hbody i n. revert i.
  induction n as [n IH] using lt_wf_ind. intros i u H.
  apply (emits_observe _
           (ITree.bind (body i)
              (fun lr => match lr with
                         | inl l => Tau (ITree.iter body l)
                         | inr r => Ret r
                         end))) in H; [| reflexivity].
  destruct (emits_bind _ u n (body i) H) as [H1 | (lr & m & Hm & H2)].
  - exact (Hbody i n u H1).
  - destruct lr as [l | r].
    + destruct m as [|m]; [contradiction |]. simpl in H2.
      apply (IH m ltac:(lia) l u H2).
    + destruct m; contradiction.
Qed.

End Emits.

Section Controls.

Variable JSON_parse : string -> option (list SubtitleItem).

Ltac quiet_request := apply only_request; exact I.

Lemma only_notify (msg : string) :
  only not_reading (GeminiService.notify (Some App.statusCallback) msg).
Proof.
  apply only_set. unfold App.statusUpdate. cbn.
  destruct (JS.includes _ _); discriminate.
Qed.

Lemma only_poll name st : only not_reading (GeminiService.poll name st).
Proof.
  apply only_iter. intros s. unfold GeminiService.poll_step.
  destruct (GeminiService.state_is s _); [| apply only_ret].
  apply only_bind; [quiet_request | intros _].
  apply only_bind; [quiet_request | intros [err | r]]; [apply only_ret |].
  cbn zeta. destruct (GeminiService.state_is _ _); apply only_ret.
Qed.

Lemma only_generate mime u lang :
  only not_reading
       (GeminiService.generate JSON_parse mime u lang (Some App.statusCallback)).
Proof.
  apply only_bind; [apply only_notify | intros _].
  apply only_bind; [quiet_request | intros [err | r]]; [apply only_ret |].
  unfold GeminiService.parse_response.
  destruct (text r) as [t |]; [| apply only_ret].
  destruct (JS.truthy t); [| apply only_ret].
  destruct (JSON_parse t); [apply only_ret |].
  apply only_bind; [quiet_request | intros _].
  apply only_bind; [quiet_request | intros _]. apply only_ret.
Qed.

Lemma only_service f lang :
  only not_reading
       (GeminiService.generateBilingualSubtitles JSON_parse f lang
          (Some App.statusCallback)).
Proof.
  apply only_bind.
  - apply only_bind; [apply only_notify | intros _].
    apply only_bind; [quiet_request | intros [err | r]]; [apply only_ret |].
    cbn zeta. destruct (GeminiService.truthy_opt _).
    + apply only_bind; [apply only_notify | intros _].
      apply only_bind; [apply only_poll | intros [err | []]];
        [apply only_ret | apply only_generate].
    + apply only_bind; [quiet_request | intros _]. apply only_ret.
  - intros [err | data]; [| apply only_ret].
    apply only_bind; [quiet_request | intros _]. apply only_ret.
Qed.

Lemma only_invoke (c : App.Control) (st : AppState) :
  only not_reading (App.invoke JSON_parse c st).
Proof.
  destruct c; cbn [App.invoke].
  - destruct (App.hasVideo st); [apply only_ret |].
    unfold App.handleFileChange. destruct files0 as [f |]; [| apply only_ret].
    destruct (_ <? _)%N; [quiet_request |].
    apply only_bind.
    + destruct (videoUrl st) as [url |]; [| apply only_ret].
      destruct (JS.truthy url); [quiet_request | apply only_ret].
    + intros _. apply only_bind; [now apply only_set | intros _].
      apply only_bind; [quiet_request | intros url].
      apply only_bind; [now apply only_set | intros _].
      apply only_bind; [now apply only_set | intros _].
      apply only_set. discriminate.
  - destruct (_ && _); [| apply only_ret].
    unfold App.handleProcess. destruct (file st) as [f |]; [| apply only_ret].
    apply only_bind; [apply only_set; discriminate | intros _].
    apply only_bind; [apply only_service | intros [err | data]].
    + apply only_bind; [quiet_request | intros _]. apply only_set. discriminate.
    + apply only_bind; [now apply only_set | intros _]. apply only_set. discriminate.
  - destruct (App.hasVideo st); [| apply only_ret].
    unfold App.handleReset.
    apply only_bind; [now apply only_set | intros _].
    apply only_bind; [now apply only_set | intros _].
    apply only_bind; [now apply only_set | intros _].
    apply only_set. discriminate.
  - destruct (App.hasVideo st); [now apply only_set | apply only_ret].
  - destruct (_ <? _)%nat; [| apply only_ret].
    unfold App.downloadSRT. destruct (_ =? _)%nat; [apply only_ret |].
    apply only_bind; [quiet_request | intros url].
    apply only_bind; [quiet_request | intros _]. quiet_request.
  - destruct (App.hasVideo st); [now apply only_set | apply only_ret].
  - destruct (nth_error _ _); [now apply only_set | apply only_ret].
Qed.

(** C10: no reachable state of the application has the processing
    status [reading]: none of the state updates that the file input, the
    generate button (its start, its status callback, its success and its
    failure), the reset button or any other control performs sets it. *)
Theorem never_reading (st : AppState) :
  reachable JSON_parse st -> status (processingState st) <> reading.
Proof.
  induction 1 as [| rendered st c u n _ _ _ IH Hemit].
  - discriminate.
  - pose proof (only_invoke c rendered n u Hemit) as Hu.
    destruct u; cbn in *; assumption.
Qed.

End Controls.

(** ** States that are reached *)

Section Reached.

Variable JSON_parse : string -> option (list SubtitleItem).

Lemma reachable_selected : reachable JSON_parse selected.
Proof.
  change selected
    with (apply_update (setVideoUrl (Some "blob:1"))
            (apply_update (setFile (Some sample_file)) App.initialState)).
  apply (reach_update _ App.initialState _ (App.FileInput (Some sample_file)) _ 3).
  - apply reach_initial.
  - apply (reach_update _ App.initialState _ (App.FileInput (Some sample_file)) _ 1).
    + apply reach_initial.
    + apply reach_initial.
    + cbn. left. reflexivity.
  - cbn. right. exists tt. right. exists "blob:1". left. reflexivity.
Qed.

Lemma reachable_uploading :
  reachable JSON_parse (with_status uploading (Some "Starting upload...")).
Proof.
  apply (reach_update _ selected _ App.GenerateButton _ 1);
    try apply reachable_selected.
  cbn. left. reflexivity.
Qed.

Lemma reachable_processing :
  reachable JSON_parse (with_status processing (Some "Processing video...")).
Proof.
  apply (reach_update _ selected _ App.GenerateButton _ 4);
    try apply reachable_selected.
  cbn. right. exists tt. right. exists tt.
  right. exists (inr (remote_file "ACTIVE")).
  left. reflexivity.
Qed.

Lemma reachable_completed (t : string) (data : list SubtitleItem) :
  JS.truthy t = true -> JSON_parse t = Some data ->
  reachable JSON_parse (with_status completed None).
Proof.
  intros Ht Hparse.
  apply (reach_update _ selected _ App.GenerateButton _ 8);
    try apply reachable_selected.
  unfold App.invoke, App.handleProcess, GeminiService.generateBilingualSubtitles,
    GeminiService.attempt, GeminiService.generate, GeminiService.parse_response.
  cbn. right. exists tt. right. exists tt.
  right. exists (inr (remote_file "ACTIVE")).
  right. exists tt. right. exists tt.
  right. exists (inr {| text := Some t |}).
  simpl. rewrite Ht, Hparse. simpl.
  right. exists tt. left. reflexivity.
Qed.

Lemma reachable_error :
  reachable JSON_parse
    (with_status error
       (Some "Failed to generate subtitles. Please try again. (offline)")).
Proof.
  apply (reach_update _ selected _ App.GenerateButton _ 6);
    try apply reachable_selected.
  cbn. right. exists tt. right. exists tt.
  right. exists (inl (JsError.Error "offline")).
  right. exists tt. right. exists tt. left. reflexivity.
Qed.

End Reached.

Lemma never_reading_witness :
  status (processingState (with_status uploading (Some "Starting upload...")))
  <> reading.
Proof.
  exact (never_reading (fun _ => None) _ (reachable_uploading (fun _ => None))).
Defined.

(* ===================================================================== *)
(** * Whole runs of the handlers *)
(* ===================================================================== *)

Lemma returns_eq_itree {R : Type} (n : nat) :
  forall t t' : itree void1 R, t ≅ t' -> returns_within n t = returns_within n t'.
Proof.
  induction n as [|n IH]; intros t t' H; [reflexivity |].
  simpl. punfold H. red in H.
  inversion H as [r1 r2 Hr | m1 m2 Hm | X e | |]; subst; try discriminate.
  - reflexivity.
  - apply IH. pclearbot. exact Hm.
  - destruct e.
Qed.

Lemma returns_of_eutt {R : Type} (t : itree void1 R) (r : R) :
  t ≈ Ret r -> exists n, returns_within n t = Some r.
Proof.
  intros H. punfold H. red in H. cbn in H.
  remember (observe t) as ot eqn:Hot. remember (RetF r) as ot2 eqn:Hot2.
  revert t Hot. induction H; intros t Hot; try discriminate.
  - injection Hot2 as <-. subst. exists 1. simpl. now rewrite <- Hot.
  - destruct (IHeqitF Hot2 t1 eq_refl) as [n Hn].
    exists (S n). simpl. now rewrite <- Hot.
Qed.

Lemma returns_run {R : Type} (p : Provider) (n : nat) (t : itree effectE R) (w : World) :
  returns_within (S n) (run p t w)
  = match observe t with
    | RetF r => Some (w, r)
    | TauF t' => returns_within n (run p t' w)
    | VisF e k => returns_within n (run p (k (reply p w e)) (record w e))
    end.
Proof.
  unfold run. rewrite (returns_eq_itree _ _ _ (unfold_interp_state _ _ _)).
  destruct (observe t); reflexivity.
Qed.

Lemma returns_run_observe {R : Type} (p : Provider) (n : nat)
      (t t' : itree effectE R) (w : World) :
  observe t = observe t' ->
  returns_within n (run p t w) = returns_within n (run p t' w).
Proof. intros H. destruct n; [reflexivity |]. now rewrite !returns_run, H. Qed.

Section Div.
Variable p : Provider.

Lemma poll_never_returns (name : option string) (n : nat) :
  forall w,
    (forall j, status_reply p (queries w + j) = Some (Some "PROCESSING")) ->
    returns_within n (run p (GeminiService.poll name (Some "PROCESSING")) w) = None.
Proof.
  induction n as [n IH] using lt_wf_ind. intros w Hall.
  destruct n as [|n]; [reflexivity |].
  rewrite returns_run. simpl.
  destruct n as [|n]; [reflexivity |].
  rewrite returns_run. simpl.
  pose proof (Hall 0) as H0. unfold status_reply in H0. rewrite Nat.add_0_r in H0.
  destruct (get_reply p (queries w)) as [err | r]; [discriminate |].
  injection H0 as H0.
  rewrite (returns_run_observe p n _
             (Tau (GeminiService.poll name (Some "PROCESSING"))))
    by (simpl; rewrite H0; reflexivity).
  destruct n as [|n]; [reflexivity |].
  rewrite returns_run. simpl.
  apply IH; [lia |].
  intros j. simpl. specialize (Hall (S j)). now rewrite Nat.add_succ_r in Hall.
Qed.
End Div.

Section AllRuns.
Variable p : Provider.

Lemma run_bind_returns {A B : Type} (t : itree effectE A) (k : A -> itree effectE B)
      (w w' : World) (b : B) :
  run p (ITree.bind t k) w ≈ Ret (w', b) ->
  exists w1 a, run p t w ≈ Ret (w1, a) /\ run p (k a) w1 ≈ Ret (w', b).
Proof.
  intros H. rewrite run_bind in H.
  apply eutt_inv_bind_ret in H. destruct H as ([w1 a] & H1 & H2).
  exists w1, a. split; assumption.
Qed.

Lemma only_tau {R : Type} (P : Update -> Prop) (t t' : itree effectE R) :
  observe t = TauF t' -> only P t -> only P t'.
Proof.
  intros Ht H n u Hn. apply (H (S n) u). simpl. now rewrite Ht.
Qed.

(** An invariant of the application state kept by every update that the
    code can make is kept by every run that returns. *)
Lemma run_keeps {R : Type} (P : Update -> Prop) (Inv : AppState -> Prop) :
  (forall u st, P u -> Inv st -> Inv (apply_update u st)) ->
  forall (n : nat) (t : itree effectE R) (w w' : World) (r : R),
    only P t -> Inv (app w) ->
    returns_within n (run p t w) = Some (w', r) -> Inv (app w').
Proof.
  intros Hstep. induction n as [|n IH]; intros t w w' r Honly Hinv Hret;
    [discriminate |].
  rewrite returns_run in Hret.
  destruct (observe t) as [r0 | t' | X e k] eqn:Ht.
  - injection Hret as <- _. exact Hinv.
  - apply (IH t' w w' r); try assumption. exact (only_tau P t t' Ht Honly).
  - apply (IH (k (reply p w e)) (record w e) w' r); try assumption.
    + intros m u Hm. apply (Honly (S m) u). simpl. rewrite Ht. right.
      now exists (reply p w e).
    + destruct e; cbn [record app]; try exact Hinv.
      apply Hstep; [| exact Hinv].
      apply (Honly 1 u). simpl. rewrite Ht. now left.
Qed.

End AllRuns.

Section ServiceUpdates.

Variable JSON_parse : string -> option (list SubtitleItem).
Variable P : Update -> Prop.
Hypothesis callback_ok : forall msg, P (App.statusUpdate msg).

Ltac request_only := apply only_request; exact I.

Lemma only_notify_status (msg : string) :
  only P (GeminiService.notify (Some App.statusCallback) msg).
Proof. apply only_set, callback_ok. Qed.

Lemma only_poll_any (name st : option string) : only P (GeminiService.poll name st).
Proof.
  apply only_iter. intros s. unfold GeminiService.poll_step.
  destruct (GeminiService.state_is s _); [| apply only_ret].
  apply only_bind; [request_only | intros _].
  apply only_bind; [request_only | intros [err | r]]; [apply only_ret |].
  cbn zeta. destruct (GeminiService.state_is _ _); apply only_ret.
Qed.

Lemma only_generate_status mime u lang :
  only P (GeminiService.generate JSON_parse mime u lang (Some App.statusCallback)).
Proof.
  apply only_bind; [apply only_notify_status | intros _].
  apply only_bind; [request_only | intros [err | r]]; [apply only_ret |].
  unfold GeminiService.parse_response.
  destruct (text r) as [t |]; [| apply only_ret].
  destruct (JS.truthy t); [| apply only_ret].
  destruct (JSON_parse t); [apply only_ret |].
  apply only_bind; [request_only | intros _].
  apply only_bind; [request_only | intros _]. apply only_ret.
Qed.

Lemma only_service_status f lang :
  only P (GeminiService.generateBilingualSubtitles JSON_parse f lang
            (Some App.statusCallback)).
Proof.
  apply only_bind.
  - apply only_bind; [apply only_notify_status | intros _].
    apply only_bind; [request_only | intros [err | r]]; [apply only_ret |].
    cbn zeta. destruct (GeminiService.truthy_opt _).
    + apply only_bind; [apply only_notify_status | intros _].
      apply only_bind; [apply only_poll_any | intros [err | []]];
        [apply only_ret | apply only_generate_status].
    + apply only_bind; [request_only | intros _]. apply only_ret.
  - intros [err | data]; [| apply only_ret].
    apply only_bind; [request_only | intros _]. apply only_ret.
Qed.

End ServiceUpdates.

Section Outcome.

Variable JSON_parse : string -> option (list SubtitleItem).
Variable p : Provider.

(** What a returning [handleProcess] went through. *)
Lemma handleProcess_returns (st : AppState) (f : File.t) (w w' : World) :
  file st = Some f ->
  run p (App.handleProcess JSON_parse st) w ≈ Ret (w', tt) ->
  exists w1 res,
    run p (GeminiService.generateBilingualSubtitles JSON_parse f (targetLanguage st)
             (Some App.statusCallback)) (starting w)
    ≈ Ret (w1, res)
    /\ w' = finished w1 res.
Proof.
  intros Hfile H. unfold App.handleProcess in H. rewrite Hfile in H.
  unfold App.set in H. rewrite run_request in H. cbn [reply] in H.
  apply run_bind_returns in H. destruct H as (w1 & res & Hservice & Hend).
  exists w1, res. split; [exact Hservice |].
  destruct res as [err | data]; cbn [finished].
  - rewrite run_request, run_trigger in Hend.
    apply eutt_inv_Ret in Hend. now injection Hend as <-.
  - rewrite run_request, run_trigger in Hend.
    apply eutt_inv_Ret in Hend. now injection Hend as <-.
Qed.

Lemma service_keeps_selection (f : File.t) (lang : Language) (w w1 : World)
      (res : JsError.t + list SubtitleItem) :
  run p (GeminiService.generateBilingualSubtitles JSON_parse f lang
           (Some App.statusCallback)) w
  ≈ Ret (w1, res) ->
  same_selection (app w1) (app w) /\ subtitles (app w1) = subtitles (app w).
Proof.
  intros H. apply returns_of_eutt in H. destruct H as [n Hn].
  refine (run_keeps p status_only
            (fun st => same_selection st (app w) /\ subtitles st = subtitles (app w))
            _ n _ w w1 res _ _ Hn).
  - intros u st Hu Hst. destruct u; try contradiction. exact Hst.
  - apply only_service_status. intros msg. exact I.
  - repeat split.
Qed.

(** X7: whatever the provider answers, a [handleProcess] that returns
    with a file selected leaves the file, the video URL, the language and
    the playback time as they were, and ends either with the status
    [completed] and no message, or with the status [error], a message
    made from the error and the subtitles as before. *)
Theorem generation_outcome (st : AppState) (f : File.t) (w w' : World) :
  file st = Some f ->
  run p (App.handleProcess JSON_parse st) w ≈ Ret (w', tt) ->
  same_selection (app w') (app w)
  /\ (processingState (app w') = {| status := completed; message := None |}
      \/ exists err,
           processingState (app w')
           = {| status := error; message := Some (App.errorMessage err) |}
           /\ subtitles (app w') = subtitles (app w)).
Proof.
  intros Hfile H.
  destruct (handleProcess_returns st f w w' Hfile H) as (w1 & res & Hservice & ->).
  destruct (service_keeps_selection f _ _ w1 res Hservice) as [Hsel Hsubs].
  cbn [starting record app apply_update] in Hsel, Hsubs.
  destruct res as [err | data]; cbn [finished record app apply_update].
  - split; [exact Hsel |]. right. exists err. split; [reflexivity | exact Hsubs].
  - split; [exact Hsel |]. now left.
Qed.

Lemma poll_stuck (name : option string) (w w' : World) (res : JsError.t + unit) :
  (forall j, status_reply p (queries w + j) = Some (Some "PROCESSING")) ->
  ~ run p (GeminiService.poll name (Some "PROCESSING")) w ≈ Ret (w', res).
Proof.
  intros Hall H. apply returns_of_eutt in H. destruct H as [n Hn].
  now rewrite (poll_never_returns p name n w Hall) in Hn.
Qed.

(** X8: when the upload gives a URI and every state that the provider
    reports is PROCESSING, [generateBilingualSubtitles] does not return:
    the polling loop has no bound on its turns. *)
Theorem endless_processing_never_returns
        (f : File.t) (lang : Language) (cb : option (string -> Update))
        (w : World) (r : FileResponse) (u : string) :
  upload_reply p = inr r ->
  RemoteFile.uri (GeminiService.unwrap r) = Some u ->
  JS.truthy u = true ->
  (forall i, seen p w i = Some (Some "PROCESSING")) ->
  forall w' res,
    ~ run p (GeminiService.generateBilingualSubtitles JSON_parse f lang
               (updating cb)) w
      ≈ Ret (w', res).
Proof.
  intros Hup Huri Hu Hall w' res H.
  unfold GeminiService.generateBilingualSubtitles in H.
  apply run_bind_returns in H. destruct H as (w1 & out & H & _).
  unfold GeminiService.attempt in H.
  rewrite (run_then p _ _ w _ tt) in H by apply run_notify.
  rewrite run_request in H. cbn [reply] in H. rewrite Hup, Huri in H.
  cbn [GeminiService.truthy_opt] in H. rewrite Hu in H.
  rewrite (run_then p _ _ _ _ tt) in H by apply run_notify.
  apply run_bind_returns in H. destruct H as (w2 & polled & H & _).
  pose proof (Hall 0) as H0. cbn [seen] in H0. rewrite Hup in H0.
  injection H0 as H0. rewrite H0 in H.
  revert H. apply poll_stuck.
  intros j. rewrite told_queries. cbn [record queries]. rewrite told_queries.
  apply (Hall (S j)).
Qed.

End Outcome.

Lemma endless_processing_never_returns_witness :
  ~ exists w' res,
      run forever_processing
        (GeminiService.generateBilingualSubtitles (fun _ => None) sample_file ENGLISH
           (updating None)) (start App.initialState)
      ≈ Ret (w', res).
Proof.
  intros (w' & res & H). revert H.
  apply (endless_processing_never_returns (fun _ => None) forever_processing
           sample_file ENGLISH None (start App.initialState)
           (remote_file "PROCESSING") "https://provider.example/files/abc"
           eq_refl eq_refl eq_refl).
  intros [|i]; reflexivity.
Defined.

Section Reported.

Variable JSON_parse : string -> option (list SubtitleItem).
Variable p : Provider.
Variable st : AppState.
Variable f : File.t.
Hypothesis Hfile : file st = Some f.

(** [handleProcess] around an attempt that returns. *)
Lemma run_process_from_attempt (w w1 : World) (res : JsError.t + list SubtitleItem) :
  run p (GeminiService.attempt JSON_parse f (targetLanguage st) (updating (Some App.statusUpdate))) (starting w)
  ≈ Ret (w1, res) ->
  run p (App.handleProcess JSON_parse st) w ≈ Ret (finished (caught w1 res) res, tt).
Proof.
  intros H. apply (run_handleProcess JSON_parse p st f w _ res Hfile).
  apply run_service. exact H.
Qed.

Lemma run_attempt_upload_rejected (w : World) (err : JsError.t) :
  upload_reply p = inl err ->
  run p (GeminiService.attempt JSON_parse f (targetLanguage st) (updating (Some App.statusUpdate))) w
  ≈ Ret (logged (told (Some App.statusUpdate) "Uploading video to Gemini..." w) [upload_of f], inl err).
Proof.
  intros Hup. unfold GeminiService.attempt.
  rewrite (run_then p _ _ w _ tt) by apply run_notify.
  rewrite run_request. cbn [reply]. rewrite Hup. apply run_ret.
Qed.

Lemma run_upload_rejected (w : World) (err : JsError.t) :
  upload_reply p = inl err ->
  run p (App.handleProcess JSON_parse st) w
  ≈ Ret (finished (caught (logged (told (Some App.statusUpdate) "Uploading video to Gemini..." (starting w))
                             [upload_of f]) (inl err)) (inl err), tt).
Proof.
  intros Hup. apply run_process_from_attempt. now apply run_attempt_upload_rejected.
Qed.

(** X2: when the upload is rejected, [handleProcess] returns with the
    status [error] and the message made from the error; nothing was
    asked after the upload but the two console errors, no status query
    and no generation, and the subtitles are as before. *)
Theorem upload_rejection_is_reported (w : World) (err : JsError.t) :
  upload_reply p = inl err ->
  exists w',
    run p (App.handleProcess JSON_parse st) w ≈ Ret (w', tt)
    /\ processingState (app w')
       = {| status := error; message := Some (App.errorMessage err) |}
    /\ log w' = log w ++ [upload_of f;
                          Called (ConsoleError "Gemini API Error:");
                          Called (ConsoleError (JsError.toString err))]
    /\ queries w' = queries w
    /\ subtitles (app w') = subtitles (app w).
Proof.
  intros Hup. eexists. split; [apply (run_upload_rejected w err Hup) |].
  cbn. rewrite <- !app_assoc. repeat split.
Qed.

(** The loop entered on PROCESSING, with [k] further PROCESSING replies
    and then a status query that is rejected. *)
Lemma run_poll_rejected (name : option string) (err : JsError.t) (k : nat) :
  forall w,
    (forall j, j < k -> status_reply p (queries w + j) = Some (Some "PROCESSING")) ->
    get_reply p (queries w + k) = inl err ->
    run p (GeminiService.poll name (Some "PROCESSING")) w
    ≈ Ret (polled w name (S k), inl err).
Proof.
  induction k as [|k IH]; intros w Hbusy Hend.
  - rewrite run_poll_turn by reflexivity.
    rewrite Nat.add_0_r in Hend. rewrite Hend.
    rewrite <- polled_turn, polled_none. reflexivity.
  - rewrite run_poll_turn by reflexivity.
    pose proof (Hbusy 0 ltac:(lia)) as H0.
    unfold status_reply in H0. rewrite Nat.add_0_r in H0.
    destruct (get_reply p (queries w)) as [e0 | r]; [discriminate |].
    injection H0 as H0. cbn zeta. rewrite H0.
    cbn [GeminiService.state_is String.eqb Ascii.eqb Bool.eqb].
    rewrite <- polled_turn.
    apply IH.
    + intros j Hj. cbn [record queries].
      specialize (Hbusy (S j) ltac:(lia)). now rewrite Nat.add_succ_r in Hbusy.
    + cbn [record queries]. now rewrite Nat.add_succ_r in Hend.
Qed.

Section Uploaded.

Variable r : FileResponse.
Variable u : string.
Hypothesis Hup : upload_reply p = inr r.
Hypothesis Huri : RemoteFile.uri (GeminiService.unwrap r) = Some u.
Hypothesis Hu : JS.truthy u = true.

Lemma run_query_rejected (w : World) (err : JsError.t) (k : nat) :
  (forall i, i <= k -> seen p w i = Some (Some "PROCESSING")) ->
  get_reply p (queries w + k) = inl err ->
  run p (App.handleProcess JSON_parse st) w
  ≈ Ret (finished (caught (after_polling (Some App.statusUpdate) f (starting w) (RemoteFile.name (GeminiService.unwrap r)) (S k)) (inl err))
                  (inl err), tt).
Proof.
  intros Hbusy Hend. apply run_process_from_attempt.
  unfold GeminiService.attempt.
  rewrite (run_then p _ _ _ _ tt) by apply run_notify.
  rewrite run_request. cbn [reply]. rewrite Hup, Huri.
  cbn [GeminiService.truthy_opt]. rewrite Hu.
  rewrite (run_then p _ _ _ _ tt) by apply run_notify.
  pose proof (Hbusy 0 ltac:(lia)) as H0. cbn [seen] in H0. rewrite Hup in H0.
  injection H0 as H0. rewrite H0.
  fold (mimeType_of f). fold (upload_of f).
  set (w0 := told (Some App.statusUpdate) "Processing video..." _).
  assert (Hq : queries w0 = queries w).
  { unfold w0. rewrite told_queries. cbn [record queries]. now rewrite told_queries. }
  rewrite (run_then p _ _ w0
             (polled w0 (RemoteFile.name (GeminiService.unwrap r)) (S k)) (inl err)).
  - apply run_ret.
  - apply run_poll_rejected.
    + intros j Hj. rewrite Hq. apply (Hbusy (S j)). lia.
    + rewrite Hq. exact Hend.
Qed.

(** X3: when the file is PROCESSING for [k] replies and the next status
    query is rejected, [handleProcess] returns with the status [error]
    and the message made from that error, after [k + 1] waits and
    queries and without a generation request; the subtitles are as
    before. *)
Theorem status_query_rejection_is_reported (w : World) (err : JsError.t) (k : nat) :
  (forall i, i <= k -> seen p w i = Some (Some "PROCESSING")) ->
  get_reply p (queries w + k) = inl err ->
  exists w',
    run p (App.handleProcess JSON_parse st) w ≈ Ret (w', tt)
    /\ processingState (app w')
       = {| status := error; message := Some (App.errorMessage err) |}
    /\ log w' = log w ++ upload_of f
                  :: concat (repeat [Called (Sleep 2000); Called (FilesGet (RemoteFile.name (GeminiService.unwrap r)))] (S k))
                  ++ [Called (ConsoleError "Gemini API Error:");
                      Called (ConsoleError (JsError.toString err))]
    /\ subtitles (app w') = subtitles (app w).
Proof.
  intros Hbusy Hend. eexists. split; [apply (run_query_rejected w err k Hbusy Hend) |].
  cbn [finished caught record logged app log apply_update processingState subtitles].
  rewrite after_polling_log. cbn [starting record log app].
  split; [reflexivity |]. split.
  - unfold polls. rewrite <- !List.app_assoc. reflexivity.
  - reflexivity.
Qed.

(** X4: when the file is PROCESSING after the upload and for [k] status
    replies, and the next status reply is FAILED, [handleProcess]
    returns with the status [error] and the message of the failed video
    processing, after [k + 1] waits and queries and without a generation
    request; the subtitles are as before. *)
Theorem failed_status_reply_is_reported (w : World) (k : nat) :
  (forall i, i <= k -> seen p w i = Some (Some "PROCESSING")) ->
  seen p w (S k) = Some (Some "FAILED") ->
  exists w',
    run p (App.handleProcess JSON_parse st) w ≈ Ret (w', tt)
    /\ processingState (app w')
       = {| status := error;
            message :=
              Some "Failed to generate subtitles. Please try again. (Video processing failed on Gemini servers.)" |}
    /\ log w' = log w ++ upload_of f
                  :: concat (repeat [Called (Sleep 2000);
                                     Called (FilesGet (RemoteFile.name
                                                         (GeminiService.unwrap r)))]
                                    (S k))
                  ++ [Called (ConsoleError "Gemini API Error:");
                      Called (ConsoleError
                                "Error: Video processing failed on Gemini servers.")]
    /\ subtitles (app w') = subtitles (app w).
Proof.
  intros Hbusy Hend. eexists. split.
  - apply run_process_from_attempt.
    assert (Hrun := run_attempt JSON_parse p f (targetLanguage st)
                      (Some App.statusUpdate) (starting w) r u (Some "FAILED") (S k)
                      Hup Huri Hu).
    cbv zeta in Hrun.
    change ((0 <? S k)%nat && GeminiService.state_is (Some "FAILED") "FAILED")
      with true in Hrun.
    apply Hrun.
    + intros i Hi. apply (Hbusy i). lia.
    + exact Hend.
    + reflexivity.
  - cbn [finished caught record logged app log apply_update processingState subtitles].
    rewrite after_polling_log. cbn [starting record log app].
    unfold polls. rewrite <- !List.app_assoc. repeat split.
Qed.

Lemma run_generate_reply (cb : option (string -> Update)) (lang : Language)
      (w : World) :
  run p (GeminiService.generate JSON_parse (mimeType_of f) u lang (updating cb)) w
  ≈ match generate_reply p with
    | inl err =>
        Ret (logged (told cb "Generating subtitles..." w)
               [Called (GenerateContent (request_for f lang u))], inl err)
    | inr response =>
        run p (GeminiService.parse_response JSON_parse response)
            (logged (told cb "Generating subtitles..." w)
               [Called (GenerateContent (request_for f lang u))])
    end.
Proof.
  unfold GeminiService.generate.
  rewrite (run_then p _ _ w _ tt) by apply run_notify.
  rewrite run_request. cbn [reply].
  destruct (generate_reply p) as [err | response]; [apply run_ret | reflexivity].
Qed.

Lemma state_is_not (s : option string) (literal : string) :
  s <> Some literal -> GeminiService.state_is s literal = false.
Proof.
  intros H. destruct s as [x |]; [| reflexivity].
  cbn. apply String.eqb_neq. congruence.
Qed.

(** [handleProcess] around a generation phase that returns. *)
Lemma run_process_from_generate (w w2 : World) (k : nat)
      (res : JsError.t + list SubtitleItem) :
  made_ready p w k ->
  run p (GeminiService.generate JSON_parse (mimeType_of f) u (targetLanguage st)
           (updating (Some App.statusUpdate)))
      (after_polling (Some App.statusUpdate) f (starting w)
         (RemoteFile.name (GeminiService.unwrap r)) k)
  ≈ Ret (w2, res) ->
  run p (App.handleProcess JSON_parse st) w ≈ Ret (finished (caught w2 res) res, tt).
Proof.
  intros (Hbusy & s & Hend & Hs & Hnf) Hgen.
  apply run_process_from_attempt.
  rewrite (run_attempt JSON_parse p f (targetLanguage st) (Some App.statusUpdate)
             (starting w) r u s k Hup Huri Hu Hbusy Hend (state_is_not s _ Hs)).
  cbn zeta. rewrite (state_is_not s _ Hnf), andb_false_r. exact Hgen.
Qed.

(** X1: with a file selected, an upload that gives a URI, [k] status
    replies PROCESSING before a state that is neither PROCESSING nor
    FAILED, and a generation response whose text parses,
    [handleProcess] returns with the parsed captions as the subtitles
    and the status [completed]; it asked for the upload, [k] times for a
    two-second wait and a status query, and once for the generation,
    in this order and nothing else. *)
Theorem generation_succeeds (w : World) (k : nat) (t : string)
        (data : list SubtitleItem) :
  made_ready p w k ->
  generate_reply p = inr {| text := Some t |} ->
  JS.truthy t = true ->
  JSON_parse t = Some data ->
  exists w',
    run p (App.handleProcess JSON_parse st) w ≈ Ret (w', tt)
    /\ subtitles (app w') = data
    /\ processingState (app w') = {| status := completed; message := None |}
    /\ log w' = log w ++ upload_of f
                  :: concat (repeat [Called (Sleep 2000);
                                     Called (FilesGet (RemoteFile.name
                                                         (GeminiService.unwrap r)))] k)
                  ++ [Called (GenerateContent (request_for f (targetLanguage st) u))]
    /\ queries w' = queries w + k.
Proof.
  intros Hready Hreply Ht Hparse. eexists.
  split.
  - eapply (run_process_from_generate w _ k (inr data) Hready).
    rewrite run_generate_reply, Hreply.
    unfold GeminiService.parse_response. cbn [text]. rewrite Ht, Hparse.
    apply run_ret.
  - cbn [finished caught record logged app log queries apply_update
           subtitles processingState].
    rewrite told_log, after_polling_log, told_queries, after_polling_queries.
    cbn [starting record log queries]. unfold polls.
    rewrite <- !List.app_assoc. repeat split.
Qed.

(** X5: when the generation response has no text, or an empty one,
    [handleProcess] returns with the status [error] and the message
    of the missing content, and the subtitles are as before. *)
Theorem empty_response_is_reported (w : World) (k : nat)
        (response : GenerateResponse) :
  made_ready p w k ->
  generate_reply p = inr response ->
  text response = None \/ text response = Some "" ->
  exists w',
    run p (App.handleProcess JSON_parse st) w ≈ Ret (w', tt)
    /\ processingState (app w')
       = {| status := error;
            message :=
              Some "Failed to generate subtitles. Please try again. (No content generated.)" |}
    /\ log w' = log w ++ upload_of f
                  :: concat (repeat [Called (Sleep 2000);
                                     Called (FilesGet (RemoteFile.name
                                                         (GeminiService.unwrap r)))] k)
                  ++ [Called (GenerateContent (request_for f (targetLanguage st) u));
                      Called (ConsoleError "Gemini API Error:");
                      Called (ConsoleError "Error: No content generated.")]
    /\ subtitles (app w') = subtitles (app w).
Proof.
  intros Hready Hreply Htext. eexists.
  split.
  - eapply (run_process_from_generate w _ k
             (inl (JsError.Error "No content generated.")) Hready).
    rewrite run_generate_reply, Hreply.
    unfold GeminiService.parse_response.
    destruct Htext as [-> | ->]; apply run_ret.
  - cbn [finished caught record logged app log queries apply_update
           subtitles processingState].
    rewrite told_log, after_polling_log.
    cbn [starting record log queries]. unfold polls.
    rewrite <- !List.app_assoc. repeat split.
Qed.

(** X6: when the text of the generation response does not parse,
    [handleProcess] returns with the status [error] and the message of
    the failed parse, after one console error for the parse, one console
    log for the raw response and the two console errors of the failure;
    the subtitles are as before. *)
Theorem unparsable_response_is_reported (w : World) (k : nat) (t : string) :
  made_ready p w k ->
  generate_reply p = inr {| text := Some t |} ->
  JS.truthy t = true ->
  JSON_parse t = None ->
  exists w',
    run p (App.handleProcess JSON_parse st) w ≈ Ret (w', tt)
    /\ processingState (app w')
       = {| status := error;
            message :=
              Some "Failed to generate subtitles. Please try again. (Failed to parse generated subtitles.)" |}
    /\ log w' = log w ++ upload_of f
                  :: concat (repeat [Called (Sleep 2000);
                                     Called (FilesGet (RemoteFile.name
                                                         (GeminiService.unwrap r)))] k)
                  ++ [Called (GenerateContent (request_for f (targetLanguage st) u));
                      Called (ConsoleError "JSON Parse Error:");
                      Called (ConsoleLog "Raw Response:");
                      Called (ConsoleError "Gemini API Error:");
                      Called (ConsoleError "Error: Failed to parse generated subtitles.")]
    /\ subtitles (app w') = subtitles (app w).
Proof.
  intros Hready Hreply Ht Hparse. eexists.
  split.
  - eapply (run_process_from_generate w _ k
             (inl (JsError.Error "Failed to parse generated subtitles.")) Hready).
    rewrite run_generate_reply, Hreply.
    unfold GeminiService.parse_response. cbn [text]. rewrite Ht, Hparse.
    rewrite run_request, run_request. apply run_ret.
  - cbn [finished caught record logged app log queries apply_update
           subtitles processingState].
    rewrite told_log, after_polling_log.
    cbn [starting record log queries]. unfold polls.
    rewrite <- !List.app_assoc. repeat split.
Qed.

End Uploaded.
End Reported.

Section Shape.

Variable JSON_parse : string -> option (list SubtitleItem).
Variable p : Provider.

(** A polling loop that returns has made a whole number of turns. *)
Lemma poll_returns_turns (name : option string) (n : nat) :
  forall (s : option string) (w w' : World) (res : JsError.t + unit),
    returns_within n (run p (GeminiService.poll name s) w) = Some (w', res) ->
    exists k, w' = polled w name k.
Proof.
  induction n as [n IH] using lt_wf_ind. intros s w w' res H.
  destruct n as [|n]; [discriminate |].
  rewrite returns_run in H.
  destruct (GeminiService.state_is s "PROCESSING") eqn:Hs.
  - assert (Hobs : observe (GeminiService.poll name s)
                   = observe (GeminiService.poll name (Some "PROCESSING"))).
    { destruct s as [x |]; [| discriminate]. cbn in Hs.
      apply String.eqb_eq in Hs. now subst. }
    rewrite Hobs in H. simpl in H.
    destruct n as [|n]; [discriminate |].
    rewrite returns_run in H. simpl in H.
    destruct (get_reply p (queries w)) as [err | r] eqn:Hreply.
    + destruct n as [|n]; [discriminate |].
      rewrite returns_run in H. simpl in H. injection H as <- _.
      exists 1. now rewrite <- polled_turn, polled_none.
    + destruct (GeminiService.state_is
                  (RemoteFile.state (GeminiService.unwrap r)) "FAILED") eqn:Hf.
      * rewrite (returns_run_observe p n _
                   (Ret (inl (JsError.Error
                                "Video processing failed on Gemini servers."))))
          in H by (simpl; rewrite Hf; reflexivity).
        destruct n as [|n]; [discriminate |].
        rewrite returns_run in H. simpl in H. injection H as <- _.
        exists 1. now rewrite <- polled_turn, polled_none.
      * rewrite (returns_run_observe p n _
                   (Tau (GeminiService.poll name
                           (RemoteFile.state (GeminiService.unwrap r)))))
          in H by (simpl; rewrite Hf; reflexivity).
        destruct n as [|n]; [discriminate |].
        rewrite returns_run in H. simpl in H.
        apply IH in H; [| lia]. destruct H as [k ->].
        exists (S k). apply polled_turn.
  - assert (Hobs : observe (GeminiService.poll name s)
                   = observe (Ret (inr tt) : itree effectE (JsError.t + unit))).
    { unfold GeminiService.poll. simpl. unfold GeminiService.poll_step.
      rewrite Hs. reflexivity. }
    rewrite Hobs in H. simpl in H. injection H as <- _.
    exists 0. now rewrite polled_none.
Qed.

Lemma poll_returns (name s : option string) (w w' : World) (res : JsError.t + unit) :
  run p (GeminiService.poll name s) w ≈ Ret (w', res) ->
  exists k, w' = polled w name k.
Proof.
  intros H. apply returns_of_eutt in H. destruct H as [n Hn].
  exact (poll_returns_turns name n s w w' res Hn).
Qed.

Ltac tidy_world :=
  repeat (progress (cbn [caught logged polled record log queries];
                    rewrite ?told_log, ?told_queries)).

Lemma returned_same {R : Type} (t : itree void1 R) (a b : R) :
  t ≈ Ret a -> t ≈ Ret b -> a = b.
Proof. intros Ha Hb. rewrite Ha in Hb. now apply eutt_inv_Ret in Hb. Qed.

Lemma service_log_shape
        (f : File.t) (lang : Language) (cb : option (string -> Update))
        (w w' : World) (res : JsError.t + list SubtitleItem) :
  run p (GeminiService.generateBilingualSubtitles JSON_parse f lang (updating cb)) w
  ≈ Ret (w', res) ->
  exists name k rest,
    log w' = log w ++ upload_of f
               :: concat (repeat [Called (Sleep 2000); Called (FilesGet name)] k)
               ++ rest
    /\ queries w' = queries w + k
    /\ (Forall console rest
        \/ exists req more,
             rest = Called (GenerateContent req) :: more /\ Forall console more).
Proof.
  intros H. unfold GeminiService.generateBilingualSubtitles in H.
  apply run_bind_returns in H. destruct H as (w1 & out & Hattempt & Hcatch).
  assert (Hw' : w' = caught w1 out).
  { destruct out as [err | data]; cbn [caught].
    - rewrite run_request, run_ret in Hcatch.
      apply eutt_inv_Ret in Hcatch. now injection Hcatch as <- _.
    - rewrite run_ret in Hcatch. apply eutt_inv_Ret in Hcatch.
      now injection Hcatch as <- _. }
  subst w'. clear Hcatch.
  unfold GeminiService.attempt in Hattempt.
  rewrite (run_then p _ _ w _ tt) in Hattempt by apply run_notify.
  rewrite run_request in Hattempt. cbn [reply] in Hattempt.
  fold (mimeType_of f) in Hattempt. fold (upload_of f) in Hattempt.
  destruct (upload_reply p) as [err | r].
  - rewrite run_ret in Hattempt. apply eutt_inv_Ret in Hattempt.
    injection Hattempt as <- <-.
    exists None, 0, [Called (ConsoleError "Gemini API Error:")].
    tidy_world. cbn [repeat concat List.app]. rewrite <- !List.app_assoc.
    repeat split; [lia |]. left. now repeat constructor.
  - cbn zeta in Hattempt.
    destruct (GeminiService.truthy_opt (RemoteFile.uri (GeminiService.unwrap r))).
    + rewrite (run_then p _ _ _ _ tt) in Hattempt by apply run_notify.
      apply run_bind_returns in Hattempt.
      destruct Hattempt as (w2 & polled_out & Hpoll & Hrest).
      apply poll_returns in Hpoll. destruct Hpoll as [k ->].
      exists (RemoteFile.name (GeminiService.unwrap r)), k.
      destruct polled_out as [err | []].
      * rewrite run_ret in Hrest. apply eutt_inv_Ret in Hrest.
        injection Hrest as <- <-.
        exists [Called (ConsoleError "Gemini API Error:")].
        tidy_world. unfold polls. rewrite <- !List.app_assoc.
        repeat split. left. now repeat constructor.
      * destruct (run_generate JSON_parse p f lang cb
                    match RemoteFile.uri (GeminiService.unwrap r) with
                    | Some u => u
                    | None => EmptyString
                    end
                    (polled (told cb "Processing video..."
                               (record (told cb "Uploading video to Gemini..." w)
                                  (FilesUpload f (File.name f) (mimeType_of f))))
                            (RemoteFile.name (GeminiService.unwrap r)) k))
          as (res' & more & Hgen & Hconsole & _).
        pose proof (returned_same _ _ _ Hrest Hgen) as Heq.
        injection Heq as -> ->.
        exists (Called (GenerateContent
                          (request_for f lang
                             match RemoteFile.uri (GeminiService.unwrap r) with
                             | Some u => u
                             | None => EmptyString
                             end))
                  :: more ++ match res' with
                             | inl _ => [Called (ConsoleError "Gemini API Error:")]
                             | inr _ => []
                             end).
        split; [| split].
        -- destruct res'; tidy_world; unfold polls; rewrite <- !List.app_assoc;
             cbn [List.app]; rewrite ?List.app_nil_r; reflexivity.
        -- destruct res'; tidy_world; reflexivity.
        -- right. eexists _, _. split; [reflexivity |].
           apply Forall_app. split; [exact Hconsole |].
           destruct res'; now repeat constructor.
    + rewrite run_request, run_ret in Hattempt. apply eutt_inv_Ret in Hattempt.
      injection Hattempt as <- <-.
      exists None, 0,
        [Called (ConsoleError "Unexpected upload result:");
         Called (ConsoleError "Gemini API Error:")].
      tidy_world. cbn [repeat concat List.app]. rewrite <- !List.app_assoc.
      repeat split; [lia |]. left. now repeat constructor.
Qed.

(** X9: every run of [generateBilingualSubtitles] that returns has
    asked for one upload first, then for some number [k] of two-second
    waits each followed by a status query of one and the same file name,
    then for at most one generation; all the rest is console output, and
    [k] status queries were made. *)
Theorem every_run_is_upload_polls_generation
        (f : File.t) (lang : Language) (cb : option (string -> Update))
        (w w' : World) (res : JsError.t + list SubtitleItem) :
  run p (GeminiService.generateBilingualSubtitles JSON_parse f lang (updating cb)) w
  ≈ Ret (w', res) ->
  exists name k rest,
    log w' = log w ++ upload_of f
               :: concat (repeat [Called (Sleep 2000); Called (FilesGet name)] k)
               ++ rest
    /\ queries w' = queries w + k
    /\ (Forall console rest
        \/ exists req more,
             rest = Called (GenerateContent req) :: more /\ Forall console more).
Proof. apply service_log_shape. Qed.

End Shape.

Lemma ready_after_two_polls : made_ready twice_processing (start selected) 2.
Proof.
  split.
  - intros i Hi. destruct i as [|[|i]]; [reflexivity | reflexivity | lia].
  - exists (Some "ACTIVE"). repeat split; discriminate.
Qed.

Lemma ready_at_once : made_ready silent_provider (start selected) 0.
Proof.
  split.
  - intros i Hi. lia.
  - exists (Some "ACTIVE"). repeat split; discriminate.
Qed.

Lemma generation_succeeds_witness :
  exists w',
    run twice_processing (App.handleProcess (fun _ => Some []) selected)
        (start selected)
    ≈ Ret (w', tt)
    /\ subtitles (app w') = []
    /\ processingState (app w') = {| status := completed; message := None |}.
Proof.
  destruct (generation_succeeds (fun _ => Some []) twice_processing selected
              sample_file eq_refl (remote_file "PROCESSING")
              "https://provider.example/files/abc" eq_refl eq_refl eq_refl
              (start selected) 2 "[]" [] ready_after_two_polls eq_refl eq_refl eq_refl)
    as (w' & Hrun & Hsubs & Hstate & _).
  exists w'. split; [exact Hrun | split; [exact Hsubs | exact Hstate]].
Defined.

Lemma upload_rejection_is_reported_witness :
  exists w',
    run quiet_provider (App.handleProcess (fun _ => None) selected) (start selected)
    ≈ Ret (w', tt)
    /\ processingState (app w')
       = {| status := error;
            message := Some "Failed to generate subtitles. Please try again. (offline)" |}.
Proof.
  destruct (upload_rejection_is_reported (fun _ => None) quiet_provider selected
              sample_file eq_refl (start selected) (JsError.Error "offline") eq_refl)
    as (w' & Hrun & Hstate & _).
  exists w'. split; [exact Hrun | exact Hstate].
Defined.

Lemma status_query_rejection_is_reported_witness :
  exists w',
    run dropped_provider (App.handleProcess (fun _ => None) selected) (start selected)
    ≈ Ret (w', tt)
    /\ waits (log w') = 1.
Proof.
  destruct (status_query_rejection_is_reported (fun _ => None) dropped_provider
              selected sample_file eq_refl (remote_file "PROCESSING")
              "https://provider.example/files/abc" eq_refl eq_refl eq_refl
              (start selected) (JsError.Error "offline") 0)
    as (w' & Hrun & _ & Hlog & _).
  - intros i Hi. destruct i; [reflexivity | lia].
  - reflexivity.
  - exists w'. split; [exact Hrun |]. rewrite Hlog. reflexivity.
Defined.

Lemma failed_status_reply_is_reported_witness :
  exists w',
    run failing_provider (App.handleProcess (fun _ => None) selected) (start selected)
    ≈ Ret (w', tt)
    /\ status (processingState (app w')) = error
    /\ generation_attempted (log w') = false.
Proof.
  destruct (failed_status_reply_is_reported (fun _ => None) failing_provider
              selected sample_file eq_refl (remote_file "PROCESSING")
              "https://provider.example/files/abc" eq_refl eq_refl eq_refl
              (start selected) 0)
    as (w' & Hrun & Hstate & Hlog & _).
  - intros i Hi. destruct i; [reflexivity | lia].
  - reflexivity.
  - exists w'. split; [exact Hrun |]. rewrite Hstate, Hlog. split; reflexivity.
Defined.

Lemma empty_response_is_reported_witness :
  exists w',
    run silent_provider (App.handleProcess (fun _ => None) selected) (start selected)
    ≈ Ret (w', tt)
    /\ status (processingState (app w')) = error.
Proof.
  destruct (empty_response_is_reported (fun _ => None) silent_provider selected
              sample_file eq_refl (remote_file "ACTIVE")
              "https://provider.example/files/abc" eq_refl eq_refl eq_refl
              (start selected) 0 {| text := None |} ready_at_once eq_refl
              (or_introl eq_refl))
    as (w' & Hrun & Hstate & _).
  exists w'. split; [exact Hrun |]. now rewrite Hstate.
Defined.

Lemma unparsable_response_is_reported_witness :
  exists w',
    run twice_processing (App.handleProcess (fun _ => None) selected) (start selected)
    ≈ Ret (w', tt)
    /\ status (processingState (app w')) = error.
Proof.
  destruct (unparsable_response_is_reported (fun _ => None) twice_processing selected
              sample_file eq_refl (remote_file "PROCESSING")
              "https://provider.example/files/abc" eq_refl eq_refl eq_refl
              (start selected) 2 "[]" ready_after_two_polls eq_refl eq_refl eq_refl)
    as (w' & Hrun & Hstate & _).
  exists w'. split; [exact Hrun |]. now rewrite Hstate.
Defined.

Lemma generation_outcome_witness :
  exists w',
    run quiet_provider (App.handleProcess (fun _ => None) selected) (start selected)
    ≈ Ret (w', tt)
    /\ same_selection (app w') selected.
Proof.
  eexists. split.
  - apply (run_upload_rejected (fun _ => None) quiet_provider selected sample_file
             eq_refl (start selected) (JsError.Error "offline") eq_refl).
  - exact (proj1 (generation_outcome (fun _ => None) quiet_provider selected
                    sample_file (start selected) _ eq_refl
                    (run_upload_rejected (fun _ => None) quiet_provider selected
                       sample_file eq_refl (start selected)
                       (JsError.Error "offline") eq_refl))).
Defined.

Lemma every_run_is_upload_polls_generation_witness :
  exists name k rest,
    log (logged (start App.initialState)
           [upload_of sample_file;
            Called (ConsoleError "Unexpected upload result:");
            Called (ConsoleError "Gemini API Error:")])
    = upload_of sample_file
        :: concat (repeat [Called (Sleep 2000); Called (FilesGet name)] k) ++ rest
    /\ k = 0.
Proof.
  destruct (every_run_is_upload_polls_generation (fun _ => None) no_uri_provider
              sample_file ENGLISH None (start App.initialState) _ _
              (run_service_no_uri (fun _ => None) no_uri_provider sample_file ENGLISH
                 None (start App.initialState) _ eq_refl eq_refl))
    as (name & k & rest & Hlog & Hq & _).
  exists name, k, rest. split; [exact Hlog |].
  cbn in Hq. lia.
Defined.

Section FloatFacts.

Lemma nan_is_NaN : is_NaN nan.
Proof. vm_compute. reflexivity. Qed.

Lemma add_NaN_l (x y : float) : is_NaN x -> is_NaN (x + y).
Proof. unfold is_NaN. intros H. rewrite add_spec, H. reflexivity. Qed.

Lemma add_NaN_r (x y : float) : is_NaN y -> is_NaN (x + y).
Proof.
  unfold is_NaN. intros H. rewrite add_spec, H.
  now destruct (Prim2SF x).
Qed.

Lemma sub_NaN_r (x y : float) : is_NaN y -> is_NaN (x - y).
Proof.
  unfold is_NaN. intros H. rewrite sub_spec, H.
  now destruct (Prim2SF x).
Qed.

Lemma abs_NaN (x : float) : is_NaN x -> is_NaN (abs x).
Proof. unfold is_NaN. intros H. rewrite abs_spec, H. reflexivity. Qed.

Lemma leb_NaN_l (x y : float) : is_NaN x -> (x <=? y)%float = false.
Proof. unfold is_NaN. intros H. rewrite leb_spec, H. reflexivity. Qed.

Lemma leb_NaN_r (x y : float) : is_NaN y -> (x <=? y)%float = false.
Proof.
  unfold is_NaN. intros H. rewrite leb_spec, H.
  now destruct (Prim2SF x).
Qed.

Lemma ltb_NaN_r (x y : float) : is_NaN y -> (x <? y)%float = false.
Proof.
  unfold is_NaN. intros H. rewrite ltb_spec, H.
  now destruct (Prim2SF x).
Qed.

(** A number that is below some number is not NaN, so it is below
    itself. *)
Lemma leb_refl_of_leb (x y : float) :
  (x <=? y)%float = true -> (x <=? x)%float = true.
Proof.
  rewrite !leb_spec. unfold SFleb.
  destruct (Prim2SF x) as [s | s | | s m e]; cbn.
  - reflexivity.
  - now destruct s.
  - discriminate.
  - intros _. destruct s; rewrite Z.compare_refl, Pos.compare_cont_refl; reflexivity.
Qed.

End FloatFacts.

Section Malformed.

Lemma parseTime_short_clock (timeStr : string) :
  List.length (clock_parts timeStr) < 3 ->
  is_NaN (VideoPlayer.parseTime timeStr).
Proof.
  intros Hlen. unfold VideoPlayer.parseTime. fold (clock_parts timeStr).
  cbv zeta. apply add_NaN_l, add_NaN_r.
  unfold JS.number_at. rewrite nth_overflow; [apply nan_is_NaN |].
  rewrite length_map. lia.
Qed.

Lemma not_in_range_NaN_start (t : float) (c : SubtitleItem) :
  is_NaN (VideoPlayer.parseTime (startTime c)) -> ~ in_range t c.
Proof.
  intros H [Hs _]. rewrite (leb_NaN_l _ _ H) in Hs. discriminate.
Qed.

Lemma not_in_range_NaN_end (t : float) (c : SubtitleItem) :
  is_NaN (VideoPlayer.parseTime (endTime c)) -> ~ in_range t c.
Proof.
  intros H [_ He]. rewrite (leb_NaN_r _ _ H) in He. discriminate.
Qed.

Lemma not_in_range_at_NaN (t : float) (c : SubtitleItem) :
  is_NaN t -> ~ in_range t c.
Proof.
  intros H [Hs _]. rewrite (leb_NaN_r _ _ H) in Hs. discriminate.
Qed.

(** X13: a caption whose start or end timestamp has fewer than three
    clock components (such as MM:SS,mmm) is never shown on the overlay
    and never highlighted in the list, at any playback time. *)
Theorem short_timestamp_never_active (c : SubtitleItem) :
  List.length (clock_parts (startTime c)) < 3
  \/ List.length (clock_parts (endTime c)) < 3 ->
  forall (subs : list SubtitleItem) (t : float),
    VideoPlayer.activeSubtitle subs t <> Some c
    /\ SubtitleList.isActive c t = false.
Proof.
  intros Hshort subs t.
  assert (Hout : ~ in_range t c).
  { destruct Hshort as [H | H].
    - now apply not_in_range_NaN_start, parseTime_short_clock.
    - now apply not_in_range_NaN_end, parseTime_short_clock. }
  split.
  - intros Hactive. apply activeSubtitle_some in Hactive.
    destruct Hactive as (_ & _ & _ & _ & Hin). contradiction.
  - destruct (SubtitleList.isActive c t) eqn:Hrow; [| reflexivity].
    exfalso. apply Hout. now apply in_range_test.
Qed.

Lemma short_timestamp_never_active_witness :
  SubtitleList.isActive (caption "01:30,000" "01:32,000") 90.5 = false.
Proof.
  apply (short_timestamp_never_active (caption "01:30,000" "01:32,000")).
  - left. apply Nat.ltb_lt. reflexivity.
  - exact [].
Defined.

End Malformed.

Section Clicks.

Variable JSON_parse : string -> option (list SubtitleItem).
Variable p : Provider.

Lemma run_row_click (st : AppState) (i : nat) (c : SubtitleItem) (w : World) :
  nth_error (subtitles st) i = Some c ->
  run p (App.invoke JSON_parse (App.SubtitleRow i) st) w
  ≈ Ret (record w (SetState (setCurrentTime
                               (SubtitleList.parseTime (startTime c)))), tt).
Proof.
  intros Hrow. cbn [App.invoke]. rewrite Hrow. apply run_trigger.
Qed.

(** X12: a click on a caption row whose start is not after its end sets
    the playback time to the start of that caption and leaves the
    subtitles alone; the overlay then shows a caption whose range holds
    that time, and it shows the clicked caption when no earlier row's
    range holds it. *)
Theorem caption_click_activates (st : AppState) (i : nat) (c : SubtitleItem)
        (w : World) :
  nth_error (subtitles st) i = Some c ->
  app w = st ->
  (VideoPlayer.parseTime (startTime c) <=? VideoPlayer.parseTime (endTime c))%float
  = true ->
  exists w',
    run p (App.invoke JSON_parse (App.SubtitleRow i) st) w ≈ Ret (w', tt)
    /\ currentTime (app w') = VideoPlayer.parseTime (startTime c)
    /\ subtitles (app w') = subtitles st
    /\ (exists shown,
           VideoPlayer.activeSubtitle (subtitles (app w')) (currentTime (app w'))
           = Some shown
           /\ in_range (VideoPlayer.parseTime (startTime c)) shown)
    /\ (Forall (fun x => ~ in_range (VideoPlayer.parseTime (startTime c)) x)
               (firstn i (subtitles st)) ->
        VideoPlayer.activeSubtitle (subtitles (app w')) (currentTime (app w'))
        = Some c).
Proof.
  intros Hrow Happ Hle.
  eexists. split; [apply (run_row_click st i c w Hrow) |].
  cbn [record app apply_update currentTime subtitles]. rewrite Happ.
  change (SubtitleList.parseTime (startTime c))
    with (VideoPlayer.parseTime (startTime c)).
  assert (Hin : in_range (VideoPlayer.parseTime (startTime c)) c).
  { split; [exact (leb_refl_of_leb _ _ Hle) | exact Hle]. }
  split; [reflexivity |]. split; [reflexivity |]. split.
  - destruct (VideoPlayer.activeSubtitle (subtitles st)
                (VideoPlayer.parseTime (startTime c))) as [shown |] eqn:Hact.
    + exists shown. split; [reflexivity |].
      apply activeSubtitle_some in Hact.
      now destruct Hact as (_ & _ & _ & _ & H).
    + exfalso. apply activeSubtitle_none in Hact.
      rewrite Forall_forall in Hact.
      exact (Hact c (nth_error_In _ _ Hrow) Hin).
  - intros Hbefore. apply activeSubtitle_some.
    exists (firstn i (subtitles st)), (skipn (S i) (subtitles st)).
    split; [| split; assumption].
    clear - Hrow. revert i Hrow.
    induction (subtitles st) as [|x l IH]; intros [|i] H; try discriminate.
    + now injection H as ->.
    + cbn. f_equal. now apply IH.
Qed.

(** X14: a click on a caption row whose start timestamp has fewer than
    three clock components sets the playback time to NaN: the player
    is not moved, whatever its position, and the overlay is empty. *)
Theorem short_timestamp_click_seeks_nowhere (st : AppState) (i : nat)
        (c : SubtitleItem) (w : World) :
  nth_error (subtitles st) i = Some c ->
  List.length (clock_parts (startTime c)) < 3 ->
  exists w',
    run p (App.invoke JSON_parse (App.SubtitleRow i) st) w ≈ Ret (w', tt)
    /\ is_NaN (currentTime (app w'))
    /\ (forall playerTime,
           VideoPlayer.syncCurrentTime (Some playerTime) (currentTime (app w')) = [])
    /\ VideoPlayer.activeSubtitle (subtitles (app w')) (currentTime (app w')) = None.
Proof.
  intros Hrow Hshort.
  eexists. split; [apply (run_row_click st i c w Hrow) |].
  cbn [record app apply_update currentTime subtitles].
  change (SubtitleList.parseTime (startTime c))
    with (VideoPlayer.parseTime (startTime c)).
  pose proof (parseTime_short_clock _ Hshort) as Hnan.
  split; [exact Hnan |]. split.
  - intros playerTime. unfold VideoPlayer.syncCurrentTime, JS.gt.
    now rewrite (ltb_NaN_r _ _ (abs_NaN _ (sub_NaN_r playerTime _ Hnan))).
  - apply activeSubtitle_none, Forall_forall.
    intros x _. now apply not_in_range_at_NaN.
Qed.

End Clicks.

Lemma caption_click_activates_witness :
  exists w',
    run quiet_provider (App.invoke (fun _ => None) (App.SubtitleRow 0) one_caption)
        (start one_caption)
    ≈ Ret (w', tt)
    /\ VideoPlayer.activeSubtitle (subtitles (app w')) (currentTime (app w'))
       = Some (caption "00:00:01,000" "00:00:02,000").
Proof.
  destruct (caption_click_activates (fun _ => None) quiet_provider one_caption 0
              (caption "00:00:01,000" "00:00:02,000") (start one_caption)
              eq_refl eq_refl eq_refl)
    as (w' & Hrun & _ & _ & _ & Hfirst).
  exists w'. split; [exact Hrun | apply Hfirst; constructor].
Defined.

Lemma short_timestamp_click_seeks_nowhere_witness :
  exists w',
    run quiet_provider
        (App.invoke (fun _ => None) (App.SubtitleRow 0)
           (apply_update (setSubtitles [caption "01:30,000" "01:32,000"]) one_caption))
        (start one_caption)
    ≈ Ret (w', tt)
    /\ VideoPlayer.syncCurrentTime (Some 12.5%float) (currentTime (app w')) = [].
Proof.
  destruct (short_timestamp_click_seeks_nowhere (fun _ => None) quiet_provider
              (apply_update (setSubtitles [caption "01:30,000" "01:32,000"]) one_caption)
              0 (caption "01:30,000" "01:32,000") (start one_caption) eq_refl)
    as (w' & Hrun & _ & Hsync & _).
  - apply Nat.ltb_lt. reflexivity.
  - exists w'. split; [exact Hrun | apply Hsync].
Defined.

(** X16: at every playback time the overlay of the player shows the
    first of the rows that the list highlights, and nothing when the
    list highlights no row. *)
Theorem overlay_is_first_highlighted_row (subs : list SubtitleItem) (t : float) :
  VideoPlayer.activeSubtitle subs t
  = hd_error (filter (fun c => SubtitleList.isActive c t) subs).
Proof.
  unfold VideoPlayer.activeSubtitle.
  induction subs as [|x l IH]; [reflexivity |].
  cbn [find filter].
  change (JS.ge t (VideoPlayer.parseTime (startTime x))
          && JS.le t (VideoPlayer.parseTime (endTime x)))
    with (SubtitleList.isActive x t).
  destruct (SubtitleList.isActive x t); [reflexivity | exact IH].
Qed.

Section Selection.

Variable JSON_parse : string -> option (list SubtitleItem).
Variable p : Provider.

(** X10: a file of at most 4 GiB (the bound included) is accepted by
    [handleFileChange]: it becomes the file, a fresh object URL of it
    becomes the video URL, the subtitles are emptied and the status is
    [idle]; the language and the playback time are kept, and the URL of
    the render's previous video, if there is one, is released first. *)
Theorem file_within_limit_is_selected (st : AppState) (f : File.t) (w : World) :
  (File.size f <= 4294967296)%N ->
  exists w',
    run p (App.handleFileChange st (Some f)) w ≈ Ret (w', tt)
    /\ app w' = accepted p f (app w)
    /\ log w' = log w
                ++ match videoUrl st with
                   | Some old => if JS.truthy old
                                 then [Called (RevokeObjectURL old)] else []
                   | None => []
                   end
                ++ [Called (CreateObjectURL (OfFile f))]
    /\ queries w' = queries w.
Proof.
  intros Hsize. unfold App.handleFileChange.
  change App.MAX_FILE_SIZE with 4294967296%N.
  apply N.ltb_ge in Hsize. rewrite Hsize. unfold App.set.
  destruct (videoUrl st) as [old |]; [destruct (JS.truthy old) |].
  - eexists. split.
    + rewrite run_request.
      rewrite run_request, run_request, run_request, run_request, run_trigger.
      reflexivity.
    + cbn. rewrite <- !List.app_assoc. repeat split.
  - eexists. split.
    + rewrite bind_ret_l.
      rewrite run_request, run_request, run_request, run_request, run_trigger.
      reflexivity.
    + cbn. repeat split.
  - eexists. split.
    + rewrite bind_ret_l.
      rewrite run_request, run_request, run_request, run_request, run_trigger.
      reflexivity.
    + cbn. repeat split.
Qed.

Lemma revocations_app (a b : list Call) :
  revocations (a ++ b) = revocations a + revocations b.
Proof.
  induction a as [|[X e] a IH]; [reflexivity |].
  destruct e; cbn [revocations List.app]; rewrite IH; reflexivity.
Qed.

Lemma logged_nothing (w : World) : logged w [] = w.
Proof. destruct w. unfold logged; cbn. now rewrite List.app_nil_r. Qed.

Lemma run_reset (w : World) :
  run p App.handleReset w
  ≈ Ret ({| app := cleared (app w); queries := queries w; log := log w |}, tt).
Proof.
  unfold App.handleReset, App.set.
  rewrite run_request, run_request, run_request, run_trigger. reflexivity.
Qed.

(** The controls other than the generate and download buttons return
    at once and release no object URL. *)
Lemma quiet_controls_release_nothing (c : App.Control) (st : AppState) (w : World) :
  c <> App.GenerateButton -> c <> App.DownloadButton ->
  exists w' made,
    run p (App.invoke JSON_parse c st) w ≈ Ret (w', tt)
    /\ log w' = log w ++ made
    /\ revocations made = 0.
Proof.
  intros Hgen Hdown.
  destruct c as [files0 | | | l | | t | i]; try contradiction; cbn [App.invoke].
  - destruct (App.hasVideo st) eqn:Hvideo.
    + exists w, []. rewrite List.app_nil_r. repeat split. apply run_ret.
    + unfold App.handleFileChange. destruct files0 as [f |].
      * destruct (App.MAX_FILE_SIZE <? File.size f)%N.
        -- eexists _, [_]. split; [apply run_trigger |]. split; reflexivity.
        -- assert (Hold : match videoUrl st with
                           | Some url =>
                               if JS.truthy url
                               then ITree.trigger (RevokeObjectURL url)
                               else Ret tt
                           | None => Ret tt
                           end = Ret tt).
           { unfold App.hasVideo in Hvideo.
             destruct (videoUrl st) as [url |]; [now rewrite Hvideo | reflexivity]. }
           rewrite Hold. unfold App.set.
           eexists _, [_]. split.
           ++ rewrite bind_ret_l.
              rewrite run_request, run_request, run_request, run_request, run_trigger.
              reflexivity.
           ++ split; reflexivity.
      * exists w, []. rewrite List.app_nil_r. repeat split. apply run_ret.
  - destruct (App.hasVideo st).
    + eexists _, []. split; [apply run_reset |].
      cbn [log]. rewrite List.app_nil_r. split; reflexivity.
    + exists w, []. rewrite List.app_nil_r. repeat split. apply run_ret.
  - destruct (App.hasVideo st).
    + eexists _, []. split; [apply run_trigger |].
      cbn [record log]. rewrite List.app_nil_r. split; reflexivity.
    + exists w, []. rewrite List.app_nil_r. repeat split. apply run_ret.
  - destruct (App.hasVideo st).
    + eexists _, []. split; [apply run_trigger |].
      cbn [record log]. rewrite List.app_nil_r. split; reflexivity.
    + exists w, []. rewrite List.app_nil_r. repeat split. apply run_ret.
  - destruct (nth_error (subtitles st) i).
    + eexists _, []. split; [apply run_trigger |].
      cbn [record log]. rewrite List.app_nil_r. split; reflexivity.
    + exists w, []. rewrite List.app_nil_r. repeat split. apply run_ret.
Qed.

Lemma revocations_polls (name : option string) (k : nat) :
  revocations (concat (repeat [Called (Sleep 2000); Called (FilesGet name)] k)) = 0.
Proof. induction k as [|k IH]; [reflexivity | exact IH]. Qed.

Lemma revocations_console (calls : list Call) :
  Forall console calls -> revocations calls = 0.
Proof.
  induction 1 as [| [X e] rest Hc _ IH]; [reflexivity |].
  destruct e; try contradiction; exact IH.
Qed.

Lemma finished_log (w : World) (res : JsError.t + list SubtitleItem) :
  exists extra, log (finished w res) = log w ++ extra /\ revocations extra = 0.
Proof.
  destruct res as [err | data]; cbn [finished record log].
  - eexists. split; reflexivity.
  - exists []. now rewrite List.app_nil_r.
Qed.

(** X11: no control other than the download button ever releases an
    object URL, in any run that returns: the file input is rendered only
    while there is no video, so its release of the previous URL finds
    none, and the reset button, the generation, the language buttons,
    the player and the caption rows release nothing. *)
Theorem video_url_never_released (c : App.Control) (st : AppState) (w w' : World) :
  c <> App.DownloadButton ->
  run p (App.invoke JSON_parse c st) w ≈ Ret (w', tt) ->
  exists made, log w' = log w ++ made /\ revocations made = 0.
Proof.
  intros Hdown Hrun.
  assert (Hquiet : c <> App.GenerateButton ->
                   exists made, log w' = log w ++ made /\ revocations made = 0).
  { intros Hgen.
    destruct (quiet_controls_release_nothing c st w Hgen Hdown)
      as (w1 & made & Hrun1 & Hlog & Hrev).
    pose proof (returned_same _ _ _ Hrun Hrun1) as Hsame.
    injection Hsame as ->. now exists made. }
  destruct c; try (apply Hquiet; discriminate).
  clear Hquiet. cbn [App.invoke] in Hrun.
  assert (Hidle : run p (Ret tt) w ≈ Ret (w', tt) ->
                  exists made, log w' = log w ++ made /\ revocations made = 0).
  { intros H. rewrite run_ret in H. apply eutt_inv_Ret in H.
    injection H as <-. exists []. now rewrite List.app_nil_r. }
  destruct (App.hasVideo st && negb (App.busy st)); [| exact (Hidle Hrun)].
  destruct (file st) as [f |] eqn:Hfile.
  - destruct (handleProcess_returns JSON_parse p st f w w' Hfile Hrun)
      as (w1 & res & Hservice & ->).
    destruct (service_log_shape JSON_parse p f (targetLanguage st)
                (Some App.statusUpdate) (starting w) w1 res Hservice)
      as (name & k & rest & Hlog & _ & Hrest).
    destruct (finished_log w1 res) as (extra & Hextra & Hrev).
    rewrite Hextra, Hlog. cbn [starting record log].
    eexists. rewrite <- !List.app_assoc. split; [reflexivity |].
    rewrite revocations_app. cbn [revocations].
    rewrite !revocations_app, revocations_polls, Hrev.
    destruct Hrest as [Hc | (req & more & -> & Hc)].
    + now rewrite (revocations_console _ Hc).
    + cbn [revocations]. now rewrite (revocations_console _ Hc).
  - unfold App.handleProcess in Hrun. rewrite Hfile in Hrun. exact (Hidle Hrun).
Qed.

End Selection.

Lemma file_within_limit_is_selected_witness :
  exists w',
    run quiet_provider (App.handleFileChange App.initialState (Some largest_file))
        (start App.initialState)
    ≈ Ret (w', tt)
    /\ file (app w') = Some largest_file.
Proof.
  destruct (file_within_limit_is_selected quiet_provider App.initialState largest_file
              (start App.initialState))
    as (w' & Hrun & Happ & _).
  - discriminate.
  - exists w'. split; [exact Hrun |]. now rewrite Happ.
Defined.

Lemma video_url_never_released_witness :
  exists w' made,
    run quiet_provider (App.invoke (fun _ => None) App.ResetButton selected)
        (start selected)
    ≈ Ret (w', tt)
    /\ videoUrl (app w') = None
    /\ log w' = log (start selected) ++ made
    /\ revocations made = 0.
Proof.
  destruct (video_url_never_released (fun _ => None) quiet_provider App.ResetButton
              selected (start selected) _ ltac:(discriminate)
              (run_reset quiet_provider (start selected)))
    as (made & Hlog & Hnone).
  eexists _, made. split; [exact (run_reset quiet_provider (start selected)) |].
  split; [reflexivity |]. split; [exact Hlog | exact Hnone].
Defined.

Section ExportLines.

Lemma uint_digits (d : Decimal.uint) :
  JS.all_chars JS.is_digit (NilEmpty.string_of_uint d) = true.
Proof.
  induction d; cbn [NilEmpty.string_of_uint]; try reflexivity;
    rewrite all_chars_cons, IHd; reflexivity.
Qed.

Lemma digit_not_line_feed (c : ascii) :
  JS.is_digit c = true -> other_than "010"%char c = true.
Proof.
  intros H. apply is_digit_cases in H; simpl in H.
  repeat (destruct H as [H | H]; [subst; reflexivity |]). contradiction.
Qed.

Lemma string_of_nat_single_line (n : nat) : single_line (JS.string_of_nat n).
Proof.
  unfold single_line, JS.string_of_nat, NilZero.string_of_uint.
  destruct (Nat.to_uint n) eqn:Hd; try reflexivity;
    rewrite <- Hd;
    apply (all_chars_weaken JS.is_digit _ _ digit_not_line_feed), uint_digits.
Qed.

Lemma split_line (a b : string) :
  single_line a -> JS.split "010"%char (a ++ LF ++ b) = a :: JS.split "010"%char b.
Proof. intros Ha. apply (split_at_separator "010"%char a b Ha). Qed.

Lemma times_single_line (c : SubtitleItem) :
  single_line (startTime c) -> single_line (endTime c) ->
  single_line (startTime c ++ " --> " ++ endTime c).
Proof.
  intros Hs He. apply all_chars_append; [exact Hs |].
  apply (all_chars_append _ " --> " (endTime c)); [reflexivity | exact He].
Qed.

Lemma string_append_assoc (a b c : string) : ((a ++ b) ++ c = a ++ (b ++ c))%string.
Proof. induction a as [|x a IH]; simpl; [reflexivity | now rewrite IH]. Qed.

Lemma block_shape (c : SubtitleItem) (i : nat) (rest : string) :
  (App.srtBlock c i ++ rest
   = JS.string_of_nat (i + 1) ++ LF
     ++ ((startTime c ++ " --> " ++ endTime c) ++ LF
         ++ (translatedText c ++ LF ++ (originalText c ++ LF ++ rest))))%string.
Proof. unfold App.srtBlock. rewrite !string_append_assoc. reflexivity. Qed.

(** The lines of one block followed by [rest]. *)
Lemma split_block (c : SubtitleItem) (i : nat) (rest : string) :
  single_line_caption c ->
  JS.split "010"%char (App.srtBlock c i ++ rest)
  = [JS.string_of_nat (i + 1);
     (startTime c ++ " --> " ++ endTime c)%string;
     translatedText c;
     originalText c] ++ JS.split "010"%char rest.
Proof.
  intros (Hs & He & Ht & Ho). rewrite block_shape.
  rewrite split_line by apply string_of_nat_single_line.
  rewrite split_line by now apply times_single_line.
  rewrite split_line by exact Ht.
  rewrite split_line by exact Ho.
  reflexivity.
Qed.

Lemma split_blocks (subs : list SubtitleItem) :
  subs <> [] ->
  Forall single_line_caption subs ->
  forall from,
    JS.split "010"%char (JS.join LF (App.map_index App.srtBlock from subs))
    = concat (App.map_index block_lines from subs).
Proof.
  induction subs as [|c [|c' rest] IH]; intros Hne Hall from.
  - contradiction.
  - inversion Hall as [|? ? Hc _]; subst.
    cbn [App.map_index JS.join concat List.app block_lines].
    rewrite <- (append_empty_r (App.srtBlock c from)).
    rewrite (split_block c from "" Hc). reflexivity.
  - inversion Hall as [|? ? Hc Hrest]; subst.
    change (App.map_index App.srtBlock from (c :: c' :: rest))
      with (App.srtBlock c from :: App.map_index App.srtBlock (S from) (c' :: rest)).
    change (JS.join LF (App.srtBlock c from
                          :: App.map_index App.srtBlock (S from) (c' :: rest)))
      with (App.srtBlock c from
            ++ LF ++ JS.join LF (App.map_index App.srtBlock (S from) (c' :: rest)))%string.
    rewrite (split_block c from _ Hc).
    change (LF ++ JS.join LF (App.map_index App.srtBlock (S from) (c' :: rest)))%string
      with (String "010"%char
              (JS.join LF (App.map_index App.srtBlock (S from) (c' :: rest)))).
    cbn [JS.split]. rewrite Ascii.eqb_refl.
    rewrite (IH ltac:(discriminate) Hrest (S from)).
    reflexivity.
Qed.

Lemma block_lines_count (subs : list SubtitleItem) (from : nat) :
  List.length (concat (App.map_index block_lines from subs)) = 5 * List.length subs.
Proof.
  revert from. induction subs as [|c rest IH]; intros from; [reflexivity |].
  cbn [App.map_index concat]. rewrite length_app, IH.
  cbn [block_lines List.length]. lia.
Qed.

(** X15: when no timestamp and no text of the captions holds a line
    feed, the exported text, split at the line feeds, is for each caption
    in order its number (from 1), its times, its translated text, its
    original text and an empty line: five lines per caption. *)
Theorem export_has_five_lines_per_caption (subs : list SubtitleItem) :
  subs <> [] ->
  Forall single_line_caption subs ->
  JS.split "010"%char (App.srtContent subs)
  = concat (App.map_index block_lines 0 subs)
  /\ List.length (JS.split "010"%char (App.srtContent subs)) = 5 * List.length subs.
Proof.
  intros Hne Hall.
  assert (H : JS.split "010"%char (App.srtContent subs)
              = concat (App.map_index block_lines 0 subs))
    by (apply (split_blocks subs Hne Hall 0)).
  split; [exact H |]. rewrite H. apply block_lines_count.
Qed.

End ExportLines.

Lemma export_has_five_lines_per_caption_witness :
  JS.split "010"%char (App.srtContent (subtitles one_caption))
  = ["1"; "00:00:01,000 --> 00:00:02,000"; "Hello"; "Hi"; EmptyString].
Proof.
  refine (proj1 (export_has_five_lines_per_caption (subtitles one_caption) _ _)).
  - discriminate.
  - repeat constructor.
Defined.
